(** * KRWW manager: deposit-to-hedge pipeline

    A shallow embedding of the TypeScript services
    ([depositMonitor.ts], [hedgeService.ts], [binanceService.ts],
    [bybitService.ts], [hyperliquidService.ts], [cmeService.ts]) and the
    properties of the hedge orchestrator and the deposit monitor.

    - JavaScript numbers are IEEE-754 binary64 values: the kernel's
      primitive floats.
    - The Redis client is a record of finite maps, one per Redis data type
      the services use, behind a small state-and-exception monad; a store
      that is not reachable makes every command throw.
    - The venues are an environment of network responses; the adapter
      methods are translated on top of it, and every adapter method the
      orchestrator invokes is recorded in a trace. *)

From Stdlib Require Import ZArith List Ascii String Floats Bool Lia.
From stdpp Require Import base option list gmap strings pretty sorting.

Set Warnings "-inexact-float,-clear-no-such-hyp".
Open Scope string_scope.
Open Scope list_scope.
Open Scope Z_scope.

(** ** JavaScript numbers *)

Module JS.

Definition number := float.

(** [Math.floor]: the largest integral value not above the argument;
    NaN, the infinities and both zeros are returned as they are. *)
Definition floor (x : number) : number :=
  match Prim2SF x with
  | S754_finite s m e =>
      if (0 <=? e)%Z then x
      else
        let q := Z.shiftr (Z.pos m) (- e) in
        let exact := Z.eqb (Z.shiftl q (- e)) (Z.pos m) in
        let mag := if s then (if exact then q else q + 1) else q in
        let f := PrimFloat.of_uint63 (Uint63.of_Z mag) in
        if s then PrimFloat.opp f else f
  | _ => x
  end.

(** [Math.max] of two numbers: NaN when either is NaN, and [+0] counts
    as larger than [-0]. *)
Definition max (a b : number) : number :=
  if PrimFloat.is_nan a || PrimFloat.is_nan b then PrimFloat.nan
  else if PrimFloat.ltb a b then b
  else if PrimFloat.ltb b a then a
  else if PrimFloat.get_sign a then b else a.

(** [x === y] on numbers. *)
Definition strictEq (a b : number) : bool := PrimFloat.eqb a b.

(** Truthiness of a number: everything except [0], [-0] and NaN. *)
Definition truthy (x : number) : bool :=
  negb (PrimFloat.is_zero x || PrimFloat.is_nan x).

(** [v || d] for a possibly missing numeric field. *)
Definition orElse (v : option number) (d : number) : number :=
  match v with
  | Some x => if truthy x then x else d
  | None => d
  end.

(** [v || d] for a possibly missing integer field (timestamps, ids). *)
Definition orElseZ (v : option Z) (d : Z) : Z :=
  match v with
  | Some x => if Z.eqb x 0 then d else x
  | None => d
  end.

(** [Number.isSafeInteger]: the integers a number holds exactly, on which
    the arithmetic of numbers is that of integers. *)
Definition isSafeInteger (z : Z) : bool := (- 2 ^ 53 <? z) && (z <? 2 ^ 53).

End JS.

(** ** JSON

    [JSON.parse(JSON.stringify(x))] for a number: JSON has neither NaN nor
    the infinities, [JSON.stringify] writes them as [null]; [-0] is written
    as [0]; every other number is read back as it was written. [None] is
    [null]. *)
Module JSON.

Definition number (x : JS.number) : option JS.number :=
  match PrimFloat.classify x with
  | NaN | PInf | NInf => None
  | NZero => Some 0%float
  | _ => Some x
  end.

End JSON.

(** ** Strings *)

(** [s.split(sep)[0]] for a one-character separator: the part of [s] before
    the first occurrence of [sep] (all of [s] when there is none). *)
Fixpoint splitHead (sep : ascii) (s : string) : string :=
  match s with
  | EmptyString => EmptyString
  | String c r => if Ascii.eqb c sep then EmptyString else String c (splitHead sep r)
  end.

(** [stripPrefix pat s] is the rest of [s] after a leading [pat]. *)
Fixpoint stripPrefix (pat s : string) : option string :=
  match pat, s with
  | EmptyString, _ => Some s
  | String _ _, EmptyString => None
  | String a p, String c r => if Ascii.eqb a c then stripPrefix p r else None
  end.

(** [s.replace(pat, rep)] with a string pattern: only the first occurrence
    is replaced. *)
Fixpoint replace (pat rep s : string) : string :=
  match stripPrefix pat s with
  | Some rest => rep +:+ rest
  | None =>
      match s with
      | EmptyString => EmptyString
      | String c r => String c (replace pat rep r)
      end
  end.

(** ** Data model ([types/index.ts]) *)

Inductive PositionType := binance | cme | hyperliquid | bybit.
Inductive Side := short | long.
Inductive Status := pending | open | closed | failed.

Definition typeName (t : PositionType) : string :=
  match t with
  | binance => "binance"
  | cme => "cme"
  | hyperliquid => "hyperliquid"
  | bybit => "bybit"
  end.

Definition Status_eqb (a b : Status) : bool :=
  match a, b with
  | pending, pending | open, open | closed, closed | failed, failed => true
  | _, _ => false
  end.

Record HedgePosition := {
  id : string;
  type : PositionType;
  symbol : string;
  side : Side;
  amount : JS.number;
  price : JS.number;
  status : Status;
  createdAt : Z;
  updatedAt : Z
}.

Record HedgeRequest := {
  depositTxHash : string;
  ethAmount : JS.number;
  krwwAmount : JS.number;
  userAddress : string
}.

Record DepositEvent := {
  user : string;
  dep_amount : string;
  krwwMinted : string;
  blockNumber : Z;
  transactionHash : string;
  dep_timestamp : Z
}.

(** The object [logHedgeExecution] serialises under [hedge_log:<txHash>]. *)
Record ExecutionLog := {
  txHash : string;
  log_ethAmount : JS.number;
  log_krwwAmount : JS.number;
  log_userAddress : string;
  positions : list HedgePosition;
  successCount : Z;
  totalHedges : Z;
  timestamp : Z
}.

(** ** Outcomes of calls that may throw *)

Inductive Outcome (A : Type) :=
| Returned (a : A)
| Thrown (e : string).
Arguments Returned {A} a.
Arguments Thrown {A} e.

Definition isReturned {A} (o : Outcome A) : bool :=
  match o with Returned _ => true | Thrown _ => false end.

Global Instance Outcome_ret : MRet Outcome := fun _ a => Returned a.
Global Instance Outcome_bind : MBind Outcome := fun _ _ f o =>
  match o with
  | Returned a => f a
  | Thrown e => Thrown e
  end.

(** [try { body } catch (error) { handler }] around a call that touches no
    state. *)
Definition catch {A} (body : Outcome A) (handler : string -> Outcome A) : Outcome A :=
  match body with
  | Returned a => Returned a
  | Thrown e => handler e
  end.

(** [v.toString()] on a number slot: a [TypeError] when the slot holds
    [null]. The numeric string is held by the number it renders. *)
Definition toString (v : option JS.number) : Outcome JS.number :=
  match v with
  | Some x => Returned x
  | None => Thrown "TypeError: Cannot read properties of null (reading 'toString')"
  end.

(** ** The venues' network responses *)

Inductive OrderSide := SELL | BUY.

(** The two places that ask Binance for a price: the ticker read while an
    order is prepared, and [getCurrentPrice]. They are separate requests
    and may be answered differently. *)
Inductive PriceRequest := OrderTicker | CurrentPrice.

Record LotSize := { minQty : JS.number; stepSize : JS.number }.

(** A symbol of Binance's exchange information, with its [LOT_SIZE] filter
    (numeric strings are held by their [parseFloat] values). *)
Record SymbolInfo := { si_symbol : string; lotSize : option LotSize }.

Record BinanceOrder := {
  b_orderId : Z;
  executedQty : JS.number;
  cummulativeQuoteQty : JS.number;
  b_status : string;
  transactTime : option Z
}.

Inductive CMEOrderPayload :=
| CMEOpen (c_symbol : string) (c_side : OrderSide) (c_quantity : JS.number)
| CMEClose (originalOrderId : string) (c_side : OrderSide) (c_quantity : option JS.number).

Record CMEOrderData := {
  c_orderId : string;
  c_price : option JS.number;
  c_status : string;
  c_timestamp : option Z
}.

Record HyperliquidOrderRequest := {
  coin : string;
  is_buy : bool;
  sz : option JS.number;
  limit_px : JS.number;
  reduce_only : bool
}.

(** One entry of [response.data.statuses]. *)
Record HyperliquidStatus := { resting_oid : option Z; filled : bool }.

Record HyperliquidOrderResult := {
  h_status : string;
  h_statuses : option (list HyperliquidStatus)
}.

(** Bybit's envelope of a list query. *)
Record BybitList (A : Type) := { l_retCode : Z; l_list : list A }.
Arguments l_retCode {A} _.
Arguments l_list {A} _.

Record BybitLotSizeFilter := { qtyStep : JS.number; minOrderQty : JS.number }.

Record BybitOrderRequest := {
  r_symbol : string;
  r_side : OrderSide;
  r_qty : JS.number;
  r_reduceOnly : bool
}.

Record BybitOrderResponse := { retCode : Z; retMsg : string; r_orderId : string }.

Record BybitOrderStatus := { os_orderStatus : string; avgPrice : JS.number }.

(** Everything outside the translated code: the clock, what each venue's
    API answers (or that the request throws), and the two library
    conversions the deposit monitor uses. *)
Record Env := {
  now : Z;
  binance_exchangeInfo : Outcome (list SymbolInfo);
  binance_prices : PriceRequest -> string -> Outcome JS.number;
  binance_order : string -> OrderSide -> JS.number -> Outcome BinanceOrder;
  cme_marketData : Outcome JS.number;
  cme_postOrder : CMEOrderPayload -> Outcome CMEOrderData;
  hl_l2Book : string -> Outcome (option (list JS.number * list JS.number));
  hl_exchange : HyperliquidOrderRequest -> Outcome HyperliquidOrderResult;
  bybit_tickers : string -> Outcome (BybitList JS.number);
  bybit_instrumentsInfo : string -> Outcome (BybitList BybitLotSizeFilter);
  bybit_orderCreate : BybitOrderRequest -> Outcome BybitOrderResponse;
  bybit_orderRealtime : string -> string -> Outcome (BybitList BybitOrderStatus);
  formatEther : Z -> string;
  parseFloat : string -> JS.number
}.

(** ** Venue adapters *)

Module BinanceService.

(** The order quantity of [createShortPosition]:
    [Math.max(Math.floor(ethAmount / stepSize) * stepSize, minQty)]. *)
Definition roundedDown (stepSize ethAmount : JS.number) : JS.number :=
  (JS.floor (ethAmount / stepSize) * stepSize)%float.

Definition quantity (stepSize minQty ethAmount : JS.number) : JS.number :=
  JS.max (roundedDown stepSize ethAmount) minQty.

Definition createShortPosition (env : Env) (symbol : string) (ethAmount : JS.number)
  : Outcome HedgePosition :=
  catch
    (exchangeInfo ← binance_exchangeInfo env;
     match find (fun s => String.eqb (si_symbol s) symbol) exchangeInfo with
     | None => Thrown ("Symbol " +:+ symbol +:+ " not found on Binance")
     | Some symbolInfo =>
         currentPrice ← binance_prices env OrderTicker symbol;
         let minQty := match lotSize symbolInfo with Some l => minQty l | None => 0.001%float end in
         let stepSize := match lotSize symbolInfo with Some l => stepSize l | None => 0.001%float end in
         let quantity := quantity stepSize minQty ethAmount in
         order ← binance_order env symbol SELL quantity;
         mret {| id := "binance_" +:+ pretty (b_orderId order);
                 type := binance;
                 symbol := symbol;
                 side := short;
                 amount := executedQty order;
                 price := (cummulativeQuoteQty order / executedQty order)%float;
                 status := if String.eqb (b_status order) "FILLED" then open else pending;
                 createdAt := JS.orElseZ (transactTime order) (now env);
                 updatedAt := JS.orElseZ (transactTime order) (now env) |}
     end)
    (fun error => Thrown ("Binance short position failed: " +:+ error)).

Definition closePosition (env : Env) (orderId symbol : string)
    (quantity : option JS.number) : Outcome bool :=
  catch
    (quantity ← toString quantity;
     order ← binance_order env symbol BUY quantity;
     mret (String.eqb (b_status order) "FILLED"))
    (fun _ => Returned false).

Definition getCurrentPrice (env : Env) (symbol : string) : Outcome JS.number :=
  catch (binance_prices env CurrentPrice symbol) (fun error => Thrown error).

End BinanceService.

Module CMEService.

Definition contractSize : JS.number := 125000%float.

Definition getCurrentKRWUSDPrice (env : Env) : Outcome JS.number :=
  catch (cme_marketData env) (fun _ => Returned 0.00075%float).

(** [Math.floor(usdValue / (contractSize / krwusdPrice))]. *)
Definition numberOfContracts (usdValue krwusdPrice : JS.number) : JS.number :=
  JS.floor (usdValue / (contractSize / krwusdPrice))%float.

Definition fallbackPosition (env : Env) (usdValue : JS.number) : HedgePosition :=
  {| id := "cme_fallback_" +:+ pretty (now env);
     type := cme;
     symbol := "KRW/USD";
     side := short;
     amount := usdValue;
     price := 0%float;
     status := failed;
     createdAt := now env;
     updatedAt := now env |}.

Definition createKRWUSDShortPosition (env : Env) (usdValue : JS.number)
  : Outcome HedgePosition :=
  catch
    (krwusdPrice ← getCurrentKRWUSDPrice env;
     let numberOfContracts := numberOfContracts usdValue krwusdPrice in
     if JS.strictEq numberOfContracts 0%float
     then Thrown "USD value too small for KRW/USD futures contract"
     else
       orderData ← cme_postOrder env (CMEOpen "KRW/USD" SELL numberOfContracts);
       mret {| id := "cme_" +:+ c_orderId orderData;
               type := cme;
               symbol := "KRW/USD";
               side := short;
               amount := numberOfContracts;
               price := JS.orElse (c_price orderData) krwusdPrice;
               status := if String.eqb (c_status orderData) "FILLED" then open else pending;
               createdAt := JS.orElseZ (c_timestamp orderData) (now env);
               updatedAt := JS.orElseZ (c_timestamp orderData) (now env) |})
    (fun _ => Returned (fallbackPosition env usdValue)).

Definition closePosition (env : Env) (orderId : string) (quantity : option JS.number)
  : Outcome bool :=
  catch
    (orderData ← cme_postOrder env (CMEClose orderId BUY quantity);
     mret (String.eqb (c_status orderData) "FILLED"))
    (fun _ => Returned false).

End CMEService.

Module HyperliquidService.

(** The mark price of [getMarketData]: the mean of the best bid and the
    best ask of the order book; throws when either side is missing. *)
Definition getMarketData (env : Env) (coin : string) : Outcome JS.number :=
  catch
    (data ← hl_l2Book env coin;
     match data with
     | Some (bestBid :: _, bestAsk :: _) => mret ((bestBid + bestAsk) / 2)%float
     | _ => Thrown ("No market data available for " +:+ coin)
     end)
    (fun error => Thrown error).

Definition failedPosition (env : Env) (coin : string) (ethAmount : JS.number)
  : HedgePosition :=
  {| id := "hyperliquid_failed_" +:+ pretty (now env);
     type := hyperliquid;
     symbol := coin;
     side := short;
     amount := ethAmount;
     price := 0%float;
     status := failed;
     createdAt := now env;
     updatedAt := now env |}.

Definition createShortPosition (env : Env) (coin : string) (ethAmount : JS.number)
  : Outcome HedgePosition :=
  catch
    (currentPrice ← getMarketData env coin;
     let positionSize := ethAmount in
     let orderRequest :=
       {| coin := coin; is_buy := false; sz := Some positionSize;
          limit_px := (currentPrice * 0.995)%float; reduce_only := false |} in
     orderResult ← hl_exchange env orderRequest;
     match (if String.eqb (h_status orderResult) "ok" then h_statuses orderResult else None) with
     | Some statuses =>
         match statuses with
         | orderStatus :: _ =>
             mret {| id := "hyperliquid_" +:+ pretty (JS.orElseZ (resting_oid orderStatus) (now env));
                     type := hyperliquid;
                     symbol := coin;
                     side := short;
                     amount := positionSize;
                     price := currentPrice;
                     status := if filled orderStatus then open else pending;
                     createdAt := now env;
                     updatedAt := now env |}
         | [] => Thrown "TypeError: Cannot read properties of undefined"
         end
     | None => Thrown "Order failed"
     end)
    (fun _ => Returned (failedPosition env coin ethAmount)).

Definition closePosition (env : Env) (coin : string) (positionSize : option JS.number)
  : Outcome bool :=
  catch
    (currentPrice ← getMarketData env coin;
     let closeOrderRequest :=
       {| coin := coin; is_buy := true; sz := positionSize;
          limit_px := (currentPrice * 1.005)%float; reduce_only := true |} in
     orderResult ← hl_exchange env closeOrderRequest;
     mret (String.eqb (h_status orderResult) "ok" &&
           match h_statuses orderResult with
           | Some (orderStatus :: _) => filled orderStatus
           | _ => false
           end))
    (fun _ => Returned false).

End HyperliquidService.

Module BybitService.

(** The head of a list query's result; throws unless [retCode === 0] and
    the list is not empty. *)
Definition firstOf {A} (what : string) (response : Outcome (BybitList A)) : Outcome A :=
  catch
    (data ← response;
     match (if Z.eqb (l_retCode data) 0 then l_list data else []) with
     | x :: _ => mret x
     | [] => Thrown ("Failed to get " +:+ what)
     end)
    (fun error => Thrown error).

Definition getTicker (env : Env) (symbol : string) : Outcome JS.number :=
  firstOf ("ticker for " +:+ symbol) (bybit_tickers env symbol).

Definition getInstrumentInfo (env : Env) (symbol : string) : Outcome BybitLotSizeFilter :=
  firstOf ("instrument info for " +:+ symbol) (bybit_instrumentsInfo env symbol).

Definition getOrderStatus (env : Env) (symbol orderId : string) : Outcome BybitOrderStatus :=
  firstOf ("order status for " +:+ orderId) (bybit_orderRealtime env symbol orderId).

(** The position size of [createShortPosition]:
    [Math.max(Math.floor(ethAmount / qtyStep) * qtyStep, minOrderQty)]. *)
Definition roundedDown (qtyStep ethAmount : JS.number) : JS.number :=
  (JS.floor (ethAmount / qtyStep) * qtyStep)%float.

Definition positionSize (qtyStep minOrderQty ethAmount : JS.number) : JS.number :=
  JS.max (roundedDown qtyStep ethAmount) minOrderQty.

Definition failedPosition (env : Env) (symbol : string) (ethAmount : JS.number)
  : HedgePosition :=
  {| id := "bybit_failed_" +:+ pretty (now env);
     type := bybit;
     symbol := symbol;
     side := short;
     amount := ethAmount;
     price := 0%float;
     status := failed;
     createdAt := now env;
     updatedAt := now env |}.

Definition createShortPosition (env : Env) (symbol : string) (ethAmount : JS.number)
  : Outcome HedgePosition :=
  catch
    (currentPrice ← getTicker env symbol;
     instrumentInfo ← getInstrumentInfo env symbol;
     let positionSize := positionSize (qtyStep instrumentInfo) (minOrderQty instrumentInfo) ethAmount in
     let orderRequest :=
       {| r_symbol := symbol; r_side := SELL; r_qty := positionSize; r_reduceOnly := false |} in
     orderResult ← bybit_orderCreate env orderRequest;
     if Z.eqb (retCode orderResult) 0 then
       orderStatus ← getOrderStatus env symbol (r_orderId orderResult);
       let isFilled := String.eqb (os_orderStatus orderStatus) "Filled" in
       mret {| id := "bybit_" +:+ r_orderId orderResult;
               type := bybit;
               symbol := symbol;
               side := short;
               amount := positionSize;
               price := if isFilled then avgPrice orderStatus else currentPrice;
               status := if isFilled then open else pending;
               createdAt := now env;
               updatedAt := now env |}
     else Thrown ("Bybit order failed: " +:+ retMsg orderResult))
    (fun _ => Returned (failedPosition env symbol ethAmount)).

Definition closePosition (env : Env) (symbol : string) (positionSize : option JS.number)
  : Outcome bool :=
  catch
    (qty ← toString positionSize;
     let orderRequest :=
       {| r_symbol := symbol; r_side := BUY; r_qty := qty; r_reduceOnly := true |} in
     orderResult ← bybit_orderCreate env orderRequest;
     if Z.eqb (retCode orderResult) 0 then
       orderStatus ← getOrderStatus env symbol (r_orderId orderResult);
       mret (String.eqb (os_orderStatus orderStatus) "Filled")
     else Returned false)
    (fun _ => Returned false).

End BybitService.

(** ** The Redis client

    One finite map per kind of value the services keep: the JSON documents
    under [hedge:<tx>:<type>], [hedge_log:<tx>] and [deposit:<tx>] (held by
    the value that was serialised; a number of a document that is read back
    is [JSON.number] of the number held), plain strings, sets, sorted sets
    and lists. The key families have pairwise different prefixes, so no
    key of one is a key of another. Expiry is not modelled: no retention
    period elapses within the runs considered. [online = false] is a store
    that cannot be reached: every command throws. *)
Record Redis := {
  online : bool;
  positionDocs : gmap string HedgePosition;
  logDocs : gmap string ExecutionLog;
  depositDocs : gmap string DepositEvent;
  plain : gmap string string;
  sets : gmap string (gset string);
  zsets : gmap string (list (Z * string));
  lists : gmap string (list HedgeRequest)
}.

(** An adapter method invoked by the orchestrator. *)
Inductive VenueCall :=
| BinanceCreateShort (symbol : string) (ethAmount : JS.number)
| BinanceGetCurrentPrice (symbol : string)
| CMECreateShort (usdValue : JS.number)
| HyperliquidCreateShort (coin : string) (ethAmount : JS.number)
| BybitCreateShort (symbol : string) (ethAmount : JS.number)
| BinanceClosePosition (orderId symbol : string) (quantity : option JS.number)
| CMEClosePosition (orderId : string) (quantity : option JS.number)
| HyperliquidClosePosition (coin : string) (positionSize : option JS.number)
| BybitClosePosition (symbol : string) (positionSize : option JS.number).

(** The state the services run in: the store, the trace of adapter calls
    made so far, and the monitor's [lastProcessedBlock] field. *)
Record World := {
  redis : Redis;
  calls : list VenueCall;
  lastProcessedBlock : Z
}.

Definition setRedis (r : Redis) (w : World) : World :=
  {| redis := r; calls := calls w; lastProcessedBlock := lastProcessedBlock w |}.

Definition M (A : Type) : Type := World -> Outcome A * World.

Global Instance M_ret : MRet M := fun _ a w => (Returned a, w).
Global Instance M_bind : MBind M := fun _ _ f m w =>
  match m w with
  | (Returned a, w') => f a w'
  | (Thrown e, w') => (Thrown e, w')
  end.

(** [try { body } catch (error) { handler }]: the handler runs in the state
    the body had reached when it threw. *)
Definition tryCatch {A} (body : M A) (handler : string -> M A) : M A := fun w =>
  match body w with
  | (Returned a, w') => (Returned a, w')
  | (Thrown e, w') => handler e w'
  end.

Definition throw {A} (e : string) : M A := fun w => (Thrown e, w).

(** One promise of [Promise.allSettled]: the call runs to its end and its
    outcome, fulfilled or rejected, is a value. *)
Definition settle {A} (m : M A) : M (Outcome A) := fun w =>
  let (o, w') := m w in (Returned o, w').

(** An adapter method is invoked: the call is recorded and its outcome is
    the adapter's. *)
Definition invoke {A} (c : VenueCall) (r : Outcome A) : M A := fun w =>
  (r, {| redis := redis w; calls := calls w ++ [c]; lastProcessedBlock := lastProcessedBlock w |}).

Fixpoint foldM {A B} (f : B -> A -> M B) (b : B) (l : list A) : M B :=
  match l with
  | [] => mret b
  | a :: l' => b' ← f b a; foldM f b' l'
  end.

Fixpoint forEach {A} (f : A -> M unit) (l : list A) : M unit :=
  match l with
  | [] => mret tt
  | a :: l' => _ ← f a; forEach f l'
  end.

Module RedisClient.

Definition command {A} (f : Redis -> A * Redis) : M A := fun w =>
  if online (redis w)
  then let (a, r) := f (redis w) in (Returned a, setRedis r w)
  else (Thrown "The client is closed", w).

Definition withPositionDocs (f : gmap string HedgePosition -> gmap string HedgePosition) (r : Redis) :=
  {| online := online r; positionDocs := f (positionDocs r); logDocs := logDocs r;
     depositDocs := depositDocs r; plain := plain r; sets := sets r; zsets := zsets r;
     lists := lists r |}.
Definition withLogDocs (f : gmap string ExecutionLog -> gmap string ExecutionLog) (r : Redis) :=
  {| online := online r; positionDocs := positionDocs r; logDocs := f (logDocs r);
     depositDocs := depositDocs r; plain := plain r; sets := sets r; zsets := zsets r;
     lists := lists r |}.
Definition withDepositDocs (f : gmap string DepositEvent -> gmap string DepositEvent) (r : Redis) :=
  {| online := online r; positionDocs := positionDocs r; logDocs := logDocs r;
     depositDocs := f (depositDocs r); plain := plain r; sets := sets r; zsets := zsets r;
     lists := lists r |}.
Definition withPlain (f : gmap string string -> gmap string string) (r : Redis) :=
  {| online := online r; positionDocs := positionDocs r; logDocs := logDocs r;
     depositDocs := depositDocs r; plain := f (plain r); sets := sets r; zsets := zsets r;
     lists := lists r |}.
Definition withSets (f : gmap string (gset string) -> gmap string (gset string)) (r : Redis) :=
  {| online := online r; positionDocs := positionDocs r; logDocs := logDocs r;
     depositDocs := depositDocs r; plain := plain r; sets := f (sets r); zsets := zsets r;
     lists := lists r |}.
Definition withZsets (f : gmap string (list (Z * string)) -> gmap string (list (Z * string))) (r : Redis) :=
  {| online := online r; positionDocs := positionDocs r; logDocs := logDocs r;
     depositDocs := depositDocs r; plain := plain r; sets := sets r; zsets := f (zsets r);
     lists := lists r |}.
Definition withLists (f : gmap string (list HedgeRequest) -> gmap string (list HedgeRequest)) (r : Redis) :=
  {| online := online r; positionDocs := positionDocs r; logDocs := logDocs r;
     depositDocs := depositDocs r; plain := plain r; sets := sets r; zsets := zsets r;
     lists := f (lists r) |}.

(** [setEx(key, ttl, JSON.stringify(value))] and [get(key)], per family
    of documents. A document is held, and handed on by [get], as the value
    that was serialised; where the code goes on to use a number of a
    document it has read back, the number went through JSON and the reader
    takes [JSON.number] of it ([HedgeService.closeOne]). *)
Definition setExPosition (key : string) (value : HedgePosition) : M unit :=
  command (fun r => (tt, withPositionDocs <[key := value]> r)).
Definition getPosition (key : string) : M (option HedgePosition) :=
  command (fun r => (positionDocs r !! key, r)).
Definition setExLog (key : string) (value : ExecutionLog) : M unit :=
  command (fun r => (tt, withLogDocs <[key := value]> r)).
Definition getLog (key : string) : M (option ExecutionLog) :=
  command (fun r => (logDocs r !! key, r)).
Definition setExDeposit (key : string) (value : DepositEvent) : M unit :=
  command (fun r => (tt, withDepositDocs <[key := value]> r)).
Definition getDeposit (key : string) : M (option DepositEvent) :=
  command (fun r => (depositDocs r !! key, r)).
Definition set (key value : string) : M unit :=
  command (fun r => (tt, withPlain <[key := value]> r)).
Definition get (key : string) : M (option string) :=
  command (fun r => (plain r !! key, r)).

(** Sets. *)
Definition members (r : Redis) (key : string) : gset string :=
  default ∅ (sets r !! key).
Definition sAdd (key member : string) : M unit :=
  command (fun r => (tt, withSets <[key := {[member]} ∪ members r key]> r)).
Definition sMembers (key : string) : M (list string) :=
  command (fun r => (elements (members r key), r)).

(** Sorted sets: entries in ascending (score, member) order, at most one
    entry per member; [zAdd] of a member that is present moves it to its
    new score. *)
Definition entryLe (a b : Z * string) : bool :=
  (a.1 <? b.1) || ((a.1 =? b.1) && String.leb a.2 b.2).
Fixpoint zinsert (e : Z * string) (l : list (Z * string)) : list (Z * string) :=
  match l with
  | [] => [e]
  | x :: l' => if entryLe e x then e :: x :: l' else x :: zinsert e l'
  end.
Definition zremove (member : string) (l : list (Z * string)) : list (Z * string) :=
  List.filter (fun x => negb (String.eqb x.2 member)) l.
Definition entries (r : Redis) (key : string) : list (Z * string) :=
  default [] (zsets r !! key).
Definition zAdd (key : string) (score : Z) (value : string) : M unit :=
  command (fun r =>
    (tt, withZsets <[key := zinsert (score, value) (zremove value (entries r key))]> r)).
(** [zRange(key, start, stop, { REV: true })]: the members from the highest
    score down, between two zero-based positions of that order, both
    included. A negative position counts back from the end ([-1] is the
    last member), as Redis resolves it; a position that is not a signed
    64-bit integer is rejected. *)
Definition range {A} (start stop : Z) (l : list A) : list A :=
  let n := Z.of_nat (length l) in
  let start := if start <? 0 then Z.max 0 (n + start) else start in
  let stop := if stop <? 0 then n + stop else stop in
  if (stop <? start) || (n <=? start) then []
  else take (Z.to_nat (Z.min stop (n - 1) - start + 1)) (drop (Z.to_nat start) l).
Definition int64 (z : Z) : bool := (- 2 ^ 63 <=? z) && (z <? 2 ^ 63).
Definition zRangeRev (key : string) (start stop : Z) : M (list string) :=
  ranked ← command (fun r => (rev (map snd (entries r key)), r));
  if int64 start && int64 stop then mret (range start stop ranked)
  else throw "ERR value is not an integer or out of range".

(** Lists. *)
Definition items (r : Redis) (key : string) : list HedgeRequest :=
  default [] (lists r !! key).
Definition lPush (key : string) (value : HedgeRequest) : M unit :=
  command (fun r => (tt, withLists <[key := value :: items r key]> r)).

End RedisClient.

(** ** The hedge orchestrator ([hedgeService.ts]) *)

Module HedgeService.

Definition executeBinanceHedge (env : Env) (request : HedgeRequest) : M HedgePosition :=
  tryCatch
    (invoke (BinanceCreateShort "ETHUSDT" (ethAmount request))
            (BinanceService.createShortPosition env "ETHUSDT" (ethAmount request)))
    (fun error => throw error).

Definition executeCMEHedge (env : Env) (request : HedgeRequest) : M HedgePosition :=
  tryCatch
    (ethPrice ← invoke (BinanceGetCurrentPrice "ETHUSDT")
                       (BinanceService.getCurrentPrice env "ETHUSDT");
     let usdValue := (ethAmount request * ethPrice)%float in
     invoke (CMECreateShort usdValue) (CMEService.createKRWUSDShortPosition env usdValue))
    (fun error => throw error).

Definition executeHyperliquidHedge (env : Env) (request : HedgeRequest) : M HedgePosition :=
  tryCatch
    (invoke (HyperliquidCreateShort "ETH" (ethAmount request))
            (HyperliquidService.createShortPosition env "ETH" (ethAmount request)))
    (fun error => throw error).

Definition executeBybitHedge (env : Env) (request : HedgeRequest) : M HedgePosition :=
  tryCatch
    (invoke (BybitCreateShort "ETHUSDT" (ethAmount request))
            (BybitService.createShortPosition env "ETHUSDT" (ethAmount request)))
    (fun error => throw error).

Definition storeHedgePosition (txHash : string) (position : HedgePosition) : M unit :=
  tryCatch
    (let key := "hedge:" +:+ txHash +:+ ":" +:+ typeName (type position) in
     _ ← RedisClient.setExPosition key position;
     RedisClient.sAdd ("hedge_index:" +:+ txHash) (id position))
    (fun _ => mret tt).

Definition logHedgeExecution (env : Env) (request : HedgeRequest)
    (positions : list HedgePosition) (successCount : Z) : M unit :=
  tryCatch
    (let executionLog :=
       {| txHash := depositTxHash request;
          log_ethAmount := ethAmount request;
          log_krwwAmount := krwwAmount request;
          log_userAddress := userAddress request;
          positions := positions;
          successCount := successCount;
          totalHedges := 2;
          timestamp := now env |} in
     let key := "hedge_log:" +:+ depositTxHash request in
     RedisClient.setExLog key executionLog)
    (fun _ => mret tt).

Definition getHedgeByTxHash (txHash : string) : M (list HedgePosition) :=
  tryCatch
    (positionIds ← RedisClient.sMembers ("hedge_index:" +:+ txHash);
     foldM (fun positions positionId =>
              let type := splitHead "_" positionId in
              let key := "hedge:" +:+ txHash +:+ ":" +:+ type in
              positionData ← RedisClient.getPosition key;
              mret (match positionData with
                    | Some position => positions ++ [position]
                    | None => positions
                    end))
           [] positionIds)
    (fun _ => mret []).

Definition getHedgeLog (txHash : string) : M (option ExecutionLog) :=
  tryCatch (RedisClient.getLog ("hedge_log:" +:+ txHash)) (fun _ => mret None).

(** The four promises handed to [Promise.allSettled], settled. *)
Definition hedgePromises (env : Env) (request : HedgeRequest)
  : M (list (Outcome HedgePosition)) :=
  r0 ← settle (executeBinanceHedge env request);
  r1 ← settle (executeCMEHedge env request);
  r2 ← settle (executeHyperliquidHedge env request);
  r3 ← settle (executeBybitHedge env request);
  mret [r0; r1; r2; r3].

(** The [results.forEach] of [executeHedge]: the count and the positions
    of the fulfilled promises. *)
Definition aggregate (results : list (Outcome HedgePosition)) : Z * list HedgePosition :=
  fold_left
    (fun acc result =>
       match result with
       | Returned value => (acc.1 + 1, acc.2 ++ [value])
       | Thrown _ => acc
       end)
    results (0, []).

Definition executeHedge (env : Env) (request : HedgeRequest) : M unit :=
  tryCatch
    (existingHedge ← getHedgeByTxHash (depositTxHash request);
     if (0 <? length existingHedge)%nat then mret tt
     else
       results ← hedgePromises env request;
       let (successCount, hedgePositions) := aggregate results in
       _ ← forEach (storeHedgePosition (depositTxHash request)) hedgePositions;
       logHedgeExecution env request hedgePositions successCount)
    (fun _ => mret tt).

(** The close call [closeHedgePositions] dispatches for one position;
    a position of no known venue leaves [success] at [false]. The position
    is a document read back from the store, so its [amount] is what JSON
    kept of the number that was stored. *)
Definition closeOne (env : Env) (position : HedgePosition) : M bool :=
  let amount := JSON.number (amount position) in
  match type position with
  | binance =>
      let orderId := replace "binance_" "" (id position) in
      invoke (BinanceClosePosition orderId (symbol position) amount)
             (BinanceService.closePosition env orderId (symbol position) amount)
  | cme =>
      let orderId := replace "cme_" "" (id position) in
      invoke (CMEClosePosition orderId amount)
             (CMEService.closePosition env orderId amount)
  | hyperliquid =>
      invoke (HyperliquidClosePosition (symbol position) amount)
             (HyperliquidService.closePosition env (symbol position) amount)
  | bybit =>
      invoke (BybitClosePosition (symbol position) amount)
             (BybitService.closePosition env (symbol position) amount)
  end.

Definition closeHedgePositions (env : Env) (txHash : string) : M bool :=
  tryCatch
    (positions ← getHedgeByTxHash txHash;
     foldM (fun allClosed position =>
              tryCatch
                (success ← closeOne env position;
                 mret (if negb success then false else allClosed))
                (fun _ => mret false))
           true positions)
    (fun _ => mret false).

End HedgeService.

(** ** The close endpoint ([POST /api/hedges/:txHash/close]) *)

Record Response := { httpStatus : Z; success : option bool; message : string }.

Definition closeRoute (env : Env) (txHash : string) : World -> Response * World := fun w =>
  match HedgeService.closeHedgePositions env txHash w with
  | (Returned success, w') =>
      ({| httpStatus := 200; success := Some success;
          message := if success then "All positions closed"
                     else "Some positions failed to close" |}, w')
  | (Thrown _, w') =>
      ({| httpStatus := 500; success := None; message := "Internal server error" |}, w')
  end.

(** ** The deposit monitor ([depositMonitor.ts]) *)

Module DepositMonitor.

(** The decoded log the provider hands to the handler. *)
Record EventLog := { e_blockNumber : Z; e_transactionHash : string }.

Definition storeDepositEvent (event : DepositEvent) : M unit :=
  tryCatch
    (let key := "deposit:" +:+ transactionHash event in
     _ ← RedisClient.setExDeposit key event;
     RedisClient.zAdd "deposits:timestamp" (dep_timestamp event) (transactionHash event))
    (fun _ => mret tt).

Definition queueHedgeRequest (request : HedgeRequest) : M unit :=
  tryCatch (RedisClient.lPush "hedge_requests" request) (fun _ => mret tt).

Definition setLastProcessedBlock (blockNumber : Z) : M unit := fun w =>
  (Returned tt, {| redis := redis w; calls := calls w; lastProcessedBlock := blockNumber |}).

Definition updateLastProcessedBlock (blockNumber : Z) : M unit :=
  tryCatch
    (fun w =>
       if (lastProcessedBlock w <? blockNumber)%Z
       then (_ ← setLastProcessedBlock blockNumber;
             RedisClient.set "last_processed_block" (pretty blockNumber)) w
       else (Returned tt, w))
    (fun _ => mret tt).

(** The hedge request [handleDepositEvent] derives from a deposit. *)
Definition hedgeRequestOf (env : Env) (depositEvent : DepositEvent) : HedgeRequest :=
  {| depositTxHash := transactionHash depositEvent;
     ethAmount := parseFloat env (dep_amount depositEvent);
     krwwAmount := parseFloat env (krwwMinted depositEvent);
     userAddress := user depositEvent |}.

Definition handleDepositEvent (env : Env) (user : string) (amount krwwMinted : Z)
    (event : EventLog) : M unit :=
  tryCatch
    (let depositEvent :=
       {| user := user;
          dep_amount := formatEther env amount;
          krwwMinted := formatEther env krwwMinted;
          blockNumber := e_blockNumber event;
          transactionHash := e_transactionHash event;
          dep_timestamp := now env |} in
     _ ← storeDepositEvent depositEvent;
     let hedgeRequest := hedgeRequestOf env depositEvent in
     _ ← queueHedgeRequest hedgeRequest;
     updateLastProcessedBlock (e_blockNumber event))
    (fun _ => mret tt).

(** [limit] is an integer: the endpoint passes the result of [parseInt]
    (100 when that is NaN or 0). *)
Definition getDepositHistory (limit : Z) : M (list DepositEvent) :=
  tryCatch
    (txHashes ← RedisClient.zRangeRev "deposits:timestamp" 0 (limit - 1);
     foldM (fun deposits txHash =>
              depositData ← RedisClient.getDeposit ("deposit:" +:+ txHash);
              mret (match depositData with
                    | Some d => deposits ++ [d]
                    | None => deposits
                    end))
           [] txHashes)
    (fun _ => mret []).

Definition getDepositByTxHash (txHash : string) : M (option DepositEvent) :=
  tryCatch (RedisClient.getDeposit ("deposit:" +:+ txHash)) (fun _ => mret None).

End DepositMonitor.

(** ** Views of the store and of one execution

    What the monadic code computes, as plain functions; the lemmas below
    relate each to the code it describes. *)

(** The records [getHedgeByTxHash] finds for a hash in a reachable store. *)
Definition storedPositions (r : Redis) (txHash : string) : list HedgePosition :=
  omap (fun positionId =>
          positionDocs r !! ("hedge:" +:+ txHash +:+ ":" +:+ splitHead "_" positionId))
       (elements (RedisClient.members r ("hedge_index:" +:+ txHash))).

(** A record is stored for a hash: what [storeHedgePosition] leaves behind,
    the document under the position's key and its id in the hash's index. *)
Definition stored (r : Redis) (txHash : string) (p : HedgePosition) : Prop :=
  positionDocs r !! ("hedge:" +:+ txHash +:+ ":" +:+ typeName (type p)) = Some p /\
  id p ∈ RedisClient.members r ("hedge_index:" +:+ txHash).

(** The id of a position starts with its venue's name and an underscore,
    as every id an adapter builds does. *)
Definition wellFormed (p : HedgePosition) : Prop :=
  splitHead "_" (id p) = typeName (type p).

(** The effect of [storeHedgePosition] on a reachable store. *)
Definition storeOne (txHash : string) (p : HedgePosition) (r : Redis) : Redis :=
  let r1 := RedisClient.withPositionDocs
              <["hedge:" +:+ txHash +:+ ":" +:+ typeName (type p) := p]> r in
  RedisClient.withSets
    <["hedge_index:" +:+ txHash :=
        {[id p]} ∪ RedisClient.members r1 ("hedge_index:" +:+ txHash)]> r1.

Definition storeAll (txHash : string) (ps : list HedgePosition) (r : Redis) : Redis :=
  fold_left (fun r p => storeOne txHash p r) ps r.

(** The object [logHedgeExecution] writes. *)
Definition executionLogOf (env : Env) (request : HedgeRequest)
    (ps : list HedgePosition) (n : Z) : ExecutionLog :=
  {| txHash := depositTxHash request;
     log_ethAmount := ethAmount request;
     log_krwwAmount := krwwAmount request;
     log_userAddress := userAddress request;
     positions := ps;
     successCount := n;
     totalHedges := 2;
     timestamp := now env |}.

(** The outcomes of the four promises of one execution. *)
Definition hedgeOutcomes (env : Env) (request : HedgeRequest) : list (Outcome HedgePosition) :=
  [ BinanceService.createShortPosition env "ETHUSDT" (ethAmount request);
    (ethPrice ← BinanceService.getCurrentPrice env "ETHUSDT";
     CMEService.createKRWUSDShortPosition env (ethAmount request * ethPrice)%float);
    HyperliquidService.createShortPosition env "ETH" (ethAmount request);
    BybitService.createShortPosition env "ETHUSDT" (ethAmount request) ].

(** The adapter methods one execution invokes. *)
Definition hedgeCalls (env : Env) (request : HedgeRequest) : list VenueCall :=
  [ BinanceCreateShort "ETHUSDT" (ethAmount request);
    BinanceGetCurrentPrice "ETHUSDT" ] ++
  match BinanceService.getCurrentPrice env "ETHUSDT" with
  | Returned ethPrice => [CMECreateShort (ethAmount request * ethPrice)%float]
  | Thrown _ => []
  end ++
  [ HyperliquidCreateShort "ETH" (ethAmount request);
    BybitCreateShort "ETHUSDT" (ethAmount request) ].

Definition addCalls (cs : list VenueCall) (w : World) : World :=
  {| redis := redis w; calls := calls w ++ cs; lastProcessedBlock := lastProcessedBlock w |}.

(** The close call made for a position, and whether it reports success. *)
Definition closeCall (p : HedgePosition) : VenueCall :=
  match type p with
  | binance =>
      BinanceClosePosition (replace "binance_" "" (id p)) (symbol p) (JSON.number (amount p))
  | cme => CMEClosePosition (replace "cme_" "" (id p)) (JSON.number (amount p))
  | hyperliquid => HyperliquidClosePosition (symbol p) (JSON.number (amount p))
  | bybit => BybitClosePosition (symbol p) (JSON.number (amount p))
  end.

Definition closeResult (env : Env) (p : HedgePosition) : Outcome bool :=
  match type p with
  | binance =>
      BinanceService.closePosition env (replace "binance_" "" (id p)) (symbol p)
        (JSON.number (amount p))
  | cme => CMEService.closePosition env (replace "cme_" "" (id p)) (JSON.number (amount p))
  | hyperliquid => HyperliquidService.closePosition env (symbol p) (JSON.number (amount p))
  | bybit => BybitService.closePosition env (symbol p) (JSON.number (amount p))
  end.

Definition closeSucceeds (env : Env) (p : HedgePosition) : bool :=
  match closeResult env p with
  | Returned true => true
  | _ => false
  end.

(** Running the execution routine for a sequence of queue entries. *)
Fixpoint executeAll (runs : list (Env * HedgeRequest)) (w : World) : World :=
  match runs with
  | [] => w
  | (env, request) :: runs' => executeAll runs' (HedgeService.executeHedge env request w).2
  end.

(** Delivering one chain event to the handler once per clock reading. *)
Fixpoint replay (envs : list Env) (user : string) (amount krwwMinted : Z)
    (event : DepositMonitor.EventLog) (w : World) : World :=
  match envs with
  | [] => w
  | env :: envs' =>
      replay envs' user amount krwwMinted event
             (DepositMonitor.handleDepositEvent env user amount krwwMinted event w).2
  end.

(** The deposit record the handler builds. *)
Definition depositEventOf (env : Env) (user : string) (amount krwwMinted : Z)
    (event : DepositMonitor.EventLog) : DepositEvent :=
  {| user := user;
     dep_amount := formatEther env amount;
     krwwMinted := formatEther env krwwMinted;
     blockNumber := DepositMonitor.e_blockNumber event;
     transactionHash := DepositMonitor.e_transactionHash event;
     dep_timestamp := now env |}.

(** The number of entries a member has in a sorted set. *)
Definition occurrences (member : string) (l : list (Z * string)) : nat :=
  length (List.filter (fun x => String.eqb x.2 member) l).

(** What [getHedgeByTxHash] returns: the records found, or the empty list
    when the store cannot be reached. *)
Definition foundPositions (r : Redis) (txHash : string) : list HedgePosition :=
  if online r then storedPositions r txHash else [].

(** The stored state of the record with a given id, for a hash. *)
Definition storedStatus (r : Redis) (txHash positionId : string) : option Status :=
  status <$> positionDocs r !! ("hedge:" +:+ txHash +:+ ":" +:+ splitHead "_" positionId).

(** The close-out as the specification words it: the call returns [false],
    every position whose close succeeded is stored as [closed] afterwards,
    and the stored record of a position whose close failed is as before. *)
Definition closeOutTransitions (env : Env) (txHash : string) (w : World) : Prop :=
  let result := HedgeService.closeHedgePositions env txHash w in
  result.1 = Returned false /\
  forall p, p ∈ foundPositions (redis w) txHash ->
    if closeSucceeds env p
    then storedStatus (redis result.2) txHash (id p) = Some closed
    else storedStatus (redis result.2) txHash (id p) = Some (status p).

(** The number of records of a list whose state is not [failed]. *)
Definition notFailed (ps : list HedgePosition) : Z :=
  Z.of_nat (length (List.filter (fun p => negb (Status_eqb (status p) failed)) ps)).

(** The at-most-once rule as the specification words it, with no condition
    on the store: after the first of two calls in sequence for one hash an
    ExecutionLog is stored for it, and the second call invokes no venue and
    writes nothing. *)
Definition secondCallIsNoOp (env1 env2 : Env) (request : HedgeRequest) (w0 : World) : Prop :=
  let w1 := (HedgeService.executeHedge env1 request w0).2 in
  is_Some (logDocs (redis w1) !! ("hedge_log:" +:+ depositTxHash request)) /\
  HedgeService.executeHedge env2 request w1 = (Returned tt, w1).

(** The guard as the specification words it, with no condition on the
    store: once a record is stored for a hash, a call of the execution
    routine for that hash invokes no venue and writes nothing. *)
Definition skipsStoredHash (env : Env) (request : HedgeRequest) (w : World) : Prop :=
  forall p, stored (redis w) (depositTxHash request) p -> wellFormed p ->
    HedgeService.executeHedge env request w = (Returned tt, w).

(** The Binance adapter sizes the order for a request of [ethAmount] at
    [quantity]: what it returns or throws is the venue's answer to the SELL
    market order for that quantity. *)
Definition binanceSells (env : Env) (symbol : string) (ethAmount quantity : JS.number) : Prop :=
  match binance_order env symbol SELL quantity with
  | Returned order =>
      exists p, BinanceService.createShortPosition env symbol ethAmount = Returned p /\
                amount p = executedQty order /\
                id p = "binance_" +:+ pretty (b_orderId order)
  | Thrown error =>
      BinanceService.createShortPosition env symbol ethAmount
      = Thrown ("Binance short position failed: " +:+ error)
  end.

(** The Bybit adapter sizes the order for a request of [ethAmount] at
    [positionSize]: it returns a position of that size when the venue
    accepts the Sell market order for it and the order's status can be
    read, and its [failed] record when the venue rejects that order, or
    the request or the status query throws. *)
Definition bybitSells (env : Env) (symbol : string) (ethAmount positionSize : JS.number) : Prop :=
  match bybit_orderCreate env {| r_symbol := symbol; r_side := SELL;
                                 r_qty := positionSize; r_reduceOnly := false |} with
  | Returned orderResult =>
      if retCode orderResult =? 0 then
        match BybitService.getOrderStatus env symbol (r_orderId orderResult) with
        | Returned _ =>
            exists p, BybitService.createShortPosition env symbol ethAmount = Returned p /\
                      amount p = positionSize /\
                      id p = "bybit_" +:+ r_orderId orderResult /\
                      status p <> failed
        | Thrown _ =>
            BybitService.createShortPosition env symbol ethAmount
            = Returned (BybitService.failedPosition env symbol ethAmount)
        end
      else
        BybitService.createShortPosition env symbol ethAmount
        = Returned (BybitService.failedPosition env symbol ethAmount)
  | Thrown _ =>
      BybitService.createShortPosition env symbol ethAmount
      = Returned (BybitService.failedPosition env symbol ethAmount)
  end.

(** ** Scenarios

    Concrete stores, requests and venue behaviours on which the code is
    evaluated. *)

Module Scenario.

Definition emptyRedis : Redis :=
  {| online := true; positionDocs := ∅; logDocs := ∅; depositDocs := ∅;
     plain := ∅; sets := ∅; zsets := ∅; lists := ∅ |}.

Definition world0 : World :=
  {| redis := emptyRedis; calls := []; lastProcessedBlock := 0 |}.

(** The same store while it cannot be reached. *)
Definition unreachable (w : World) : World :=
  setRedis
    {| online := false; positionDocs := positionDocs (redis w);
       logDocs := logDocs (redis w); depositDocs := depositDocs (redis w);
       plain := plain (redis w); sets := sets (redis w); zsets := zsets (redis w);
       lists := lists (redis w) |} w.

Definition tx : string := "0xabc".

(** A deposit of 100000 ETH: large enough for the futures venue to size
    one contract. *)
Definition request0 : HedgeRequest :=
  {| depositTxHash := tx; ethAmount := 100000%float; krwwAmount := 270000000000%float;
     userAddress := "0xdepositor" |}.

(** A deposit of 1 ETH. *)
Definition request1 : HedgeRequest :=
  {| depositTxHash := tx; ethAmount := 1%float; krwwAmount := 2700000%float;
     userAddress := "0xdepositor" |}.

Definition ethusdt : SymbolInfo :=
  {| si_symbol := "ETHUSDT";
     lotSize := Some {| minQty := 0.01%float; stepSize := 0.001%float |} |}.

Definition fillBinance (symbol : string) (orderSide : OrderSide) (quantity : JS.number)
  : Outcome BinanceOrder :=
  Returned {| b_orderId := 1001; executedQty := quantity;
              cummulativeQuoteQty := (quantity * 2000)%float;
              b_status := "FILLED"; transactTime := Some 1700000000500 |}.

Definition fillCME (payload : CMEOrderPayload) : Outcome CMEOrderData :=
  Returned {| c_orderId := "77"; c_price := None; c_status := "FILLED";
              c_timestamp := None |}.

Definition fillHyperliquid (request : HyperliquidOrderRequest)
  : Outcome HyperliquidOrderResult :=
  Returned {| h_status := "ok";
              h_statuses := Some [{| resting_oid := Some 5; filled := true |}] |}.

Definition instruments : Outcome (BybitList BybitLotSizeFilter) :=
  Returned {| l_retCode := 0;
              l_list := [{| qtyStep := 0.001%float; minOrderQty := 0.01%float |}] |}.

Definition acceptBybit (request : BybitOrderRequest) : Outcome BybitOrderResponse :=
  Returned {| retCode := 0; retMsg := "OK"; r_orderId := "abc" |}.

Definition rejectBybit (request : BybitOrderRequest) : Outcome BybitOrderResponse :=
  Returned {| retCode := 10001; retMsg := "params error"; r_orderId := "" |}.

Definition filledBybit (symbol orderId : string) : Outcome (BybitList BybitOrderStatus) :=
  Returned {| l_retCode := 0;
              l_list := [{| os_orderStatus := "Filled"; avgPrice := 2000.5%float |}] |}.

(** Every venue answers and fills. *)
Definition allFill : Env :=
  {| now := 1700000000000;
     binance_exchangeInfo := Returned [ethusdt];
     binance_prices := fun _ _ => Returned 2000%float;
     binance_order := fillBinance;
     cme_marketData := Returned 0.00075%float;
     cme_postOrder := fillCME;
     hl_l2Book := fun _ => Returned (Some ([1999%float], [2001%float]));
     hl_exchange := fillHyperliquid;
     bybit_tickers := fun _ => Returned {| l_retCode := 0; l_list := [2001%float] |};
     bybit_instrumentsInfo := fun _ => instruments;
     bybit_orderCreate := acceptBybit;
     bybit_orderRealtime := filledBybit;
     formatEther := fun _ => "1.0";
     parseFloat := fun _ => 1%float |}.

(** Binance cannot be reached: its order and its price request throw, so
    the Binance promise and the CME promise (which asks Binance for the
    ETH price first) reject; Hyperliquid and Bybit fill. *)
Definition binanceDown : Env :=
  {| now := 1700000000000;
     binance_exchangeInfo := Thrown "ECONNREFUSED";
     binance_prices := fun _ _ => Thrown "ECONNREFUSED";
     binance_order := fun _ _ _ => Thrown "ECONNREFUSED";
     cme_marketData := Returned 0.00075%float;
     cme_postOrder := fillCME;
     hl_l2Book := fun _ => Returned (Some ([1999%float], [2001%float]));
     hl_exchange := fillHyperliquid;
     bybit_tickers := fun _ => Returned {| l_retCode := 0; l_list := [2001%float] |};
     bybit_instrumentsInfo := fun _ => instruments;
     bybit_orderCreate := acceptBybit;
     bybit_orderRealtime := filledBybit;
     formatEther := fun _ => "1.0";
     parseFloat := fun _ => 1%float |}.

(** Bybit rejects the order; the other three venues fill. *)
Definition bybitRejects : Env :=
  {| now := 1700000000000;
     binance_exchangeInfo := Returned [ethusdt];
     binance_prices := fun _ _ => Returned 2000%float;
     binance_order := fillBinance;
     cme_marketData := Returned 0.00075%float;
     cme_postOrder := fillCME;
     hl_l2Book := fun _ => Returned (Some ([1999%float], [2001%float]));
     hl_exchange := fillHyperliquid;
     bybit_tickers := fun _ => Returned {| l_retCode := 0; l_list := [2001%float] |};
     bybit_instrumentsInfo := fun _ => instruments;
     bybit_orderCreate := rejectBybit;
     bybit_orderRealtime := filledBybit;
     formatEther := fun _ => "1.0";
     parseFloat := fun _ => 1%float |}.

(** Hyperliquid and Bybit cannot be reached; Binance and CME fill. *)
Definition perpetualsDown : Env :=
  {| now := 1700000000000;
     binance_exchangeInfo := Returned [ethusdt];
     binance_prices := fun _ _ => Returned 2000%float;
     binance_order := fillBinance;
     cme_marketData := Returned 0.00075%float;
     cme_postOrder := fillCME;
     hl_l2Book := fun _ => Thrown "ECONNREFUSED";
     hl_exchange := fun _ => Thrown "ECONNREFUSED";
     bybit_tickers := fun _ => Thrown "ECONNREFUSED";
     bybit_instrumentsInfo := fun _ => Thrown "ECONNREFUSED";
     bybit_orderCreate := fun _ => Thrown "ECONNREFUSED";
     bybit_orderRealtime := fun _ _ => Thrown "ECONNREFUSED";
     formatEther := fun _ => "1.0";
     parseFloat := fun _ => 1%float |}.

(** No venue can be reached. *)
Definition allDown : Env :=
  {| now := 1700000000000;
     binance_exchangeInfo := Thrown "ECONNREFUSED";
     binance_prices := fun _ _ => Thrown "ECONNREFUSED";
     binance_order := fun _ _ _ => Thrown "ECONNREFUSED";
     cme_marketData := Thrown "ECONNREFUSED";
     cme_postOrder := fun _ => Thrown "ECONNREFUSED";
     hl_l2Book := fun _ => Thrown "ECONNREFUSED";
     hl_exchange := fun _ => Thrown "ECONNREFUSED";
     bybit_tickers := fun _ => Thrown "ECONNREFUSED";
     bybit_instrumentsInfo := fun _ => Thrown "ECONNREFUSED";
     bybit_orderCreate := fun _ => Thrown "ECONNREFUSED";
     bybit_orderRealtime := fun _ _ => Thrown "ECONNREFUSED";
     formatEther := fun _ => "1.0";
     parseFloat := fun _ => 1%float |}.

(** Three open positions, as the adapters return them on a fill. *)
Definition openBinance : HedgePosition :=
  {| id := "binance_1001"; type := binance; symbol := "ETHUSDT"; side := short;
     amount := 1%float; price := 2000%float; status := open;
     createdAt := 1700000000500; updatedAt := 1700000000500 |}.
Definition openHyperliquid : HedgePosition :=
  {| id := "hyperliquid_5"; type := hyperliquid; symbol := "ETH"; side := short;
     amount := 1%float; price := 2000%float; status := open;
     createdAt := 1700000000000; updatedAt := 1700000000000 |}.
Definition openBybit : HedgePosition :=
  {| id := "bybit_abc"; type := bybit; symbol := "ETHUSDT"; side := short;
     amount := 1%float; price := 2000.5%float; status := open;
     createdAt := 1700000000000; updatedAt := 1700000000000 |}.

(** The store after [storeHedgePosition] has run for the three. *)
Definition threeOpen : World :=
  (forEach (HedgeService.storeHedgePosition tx)
           [openBinance; openHyperliquid; openBybit] world0).2.

Definition depositLog : DepositMonitor.EventLog :=
  {| DepositMonitor.e_blockNumber := 19000000; DepositMonitor.e_transactionHash := tx |}.

(** A second delivery of the same event, half a minute later. *)
Definition later : Env :=
  {| now := 1700000030000;
     binance_exchangeInfo := binance_exchangeInfo allFill;
     binance_prices := binance_prices allFill;
     binance_order := binance_order allFill;
     cme_marketData := cme_marketData allFill;
     cme_postOrder := cme_postOrder allFill;
     hl_l2Book := hl_l2Book allFill;
     hl_exchange := hl_exchange allFill;
     bybit_tickers := bybit_tickers allFill;
     bybit_instrumentsInfo := bybit_instrumentsInfo allFill;
     bybit_orderCreate := bybit_orderCreate allFill;
     bybit_orderRealtime := bybit_orderRealtime allFill;
     formatEther := formatEther allFill;
     parseFloat := parseFloat allFill |}.

End Scenario.

(** ** The rest of the orchestrator: outcome classification and the
    consumer loop *)

Inductive Level := LogError | LogWarn | LogInfo.

Module HedgeConsumer.

(** The line [executeHedge] logs once the execution log is written. *)
Definition outcomeLine (successCount : Z) (txHash : string) : Level * string :=
  if successCount =? 0 then (LogError, "All hedges failed for deposit: " +:+ txHash)
  else if successCount =? 1 then (LogWarn, "Partial hedge success for deposit: " +:+ txHash)
  else (LogInfo, "Full hedge success for deposit: " +:+ txHash).

(** [brPop(key, timeout)]: the element at the tail of the list, or [null]
    once the timeout elapses on an empty list; a list that becomes empty is
    removed. *)
Definition brPop (key : string) : M (option HedgeRequest) :=
  RedisClient.command (fun r =>
    match rev (RedisClient.items r key) with
    | [] => (None, r)
    | element :: rest =>
        (Some element,
         RedisClient.withLists
           (match rest with
            | [] => delete key
            | _ => <[key := rev rest]>
            end) r)
    end).

(** One turn of the [while (this.isProcessing)] loop of
    [processHedgeRequests]; queue entries are held decoded. The amounts of
    a queued request are [parseFloat] of the decimal numerals [formatEther]
    renders: finite numbers, which JSON writes and reads back unchanged. *)
Definition iteration (env : Env) : M unit :=
  tryCatch
    (requestData ← brPop "hedge_requests";
     match requestData with
     | Some hedgeRequest => HedgeService.executeHedge env hedgeRequest
     | None => mret tt
     end)
    (fun _ => mret tt).

(** The loop while the service is processing, one environment per turn. *)
Fixpoint processHedgeRequests (envs : list Env) : M unit :=
  match envs with
  | [] => mret tt
  | env :: envs' => _ ← iteration env; processHedgeRequests envs'
  end.

End HedgeConsumer.

(** ** The rest of the deposit monitor: reconciliation *)

Module Reconciliation.

(** An entry of [queryFilter]'s answer: whether it is a decoded
    [EventLog], its three arguments and its log. *)
Record ChainEvent := {
  isEventLog : bool;
  arg_user : string;
  arg_amount : Z;
  arg_krwwMinted : Z;
  eventLog : DepositMonitor.EventLog
}.

(** The provider: the current block height and the historical logs of the
    deposit event in a block range. *)
Record Provider := {
  getBlockNumber : Outcome Z;
  queryFilter : Z -> Z -> Outcome (list ChainEvent)
}.

(** The [for (const event of events)] loop of [checkMissedEvents]; the
    [i]-th event is handled in the environment [envs i]. *)
Fixpoint handleEvents (envs : nat -> Env) (i : nat) (events : list ChainEvent) : M unit :=
  match events with
  | [] => mret tt
  | event :: events' =>
      _ ← (if isEventLog event
           then DepositMonitor.handleDepositEvent (envs i) (arg_user event)
                  (arg_amount event) (arg_krwwMinted event) (eventLog event)
           else mret tt);
      handleEvents envs (S i) events'
  end.

Definition provider {A} (r : Outcome A) : M A := fun w => (r, w).

(** Reading the monitor's [lastProcessedBlock] field. *)
Definition thisLastProcessedBlock : M Z := fun w => (Returned (lastProcessedBlock w), w).

Definition checkMissedEvents (chain : Provider) (envs : nat -> Env) : M unit :=
  tryCatch
    (currentBlock ← provider (getBlockNumber chain);
     last ← thisLastProcessedBlock;
     let fromBlock := last + 1 in
     if currentBlock <? fromBlock then mret tt
     else
       events ← provider (queryFilter chain fromBlock currentBlock);
       handleEvents envs 0 events)
    (fun _ => mret tt).

End Reconciliation.

(** ** The read endpoints *)

Record DepositReply := {
  deposit_status : Z;
  deposit_body : option DepositEvent;
  deposit_error : option string
}.

(** [GET /api/deposits/:txHash]. *)
Definition depositRoute (txHash : string) : World -> DepositReply * World := fun w =>
  match DepositMonitor.getDepositByTxHash txHash w with
  | (Returned (Some deposit), w') =>
      ({| deposit_status := 200; deposit_body := Some deposit; deposit_error := None |}, w')
  | (Returned None, w') =>
      ({| deposit_status := 404; deposit_body := None;
          deposit_error := Some "Deposit not found" |}, w')
  | (Thrown _, w') =>
      ({| deposit_status := 500; deposit_body := None;
          deposit_error := Some "Internal server error" |}, w')
  end.

Record HedgesReply := {
  hedges_status : Z;
  hedges_positions : list HedgePosition;
  hedges_log : option ExecutionLog
}.

(** [GET /api/hedges/:txHash]. *)
Definition hedgesRoute (txHash : string) : World -> HedgesReply * World := fun w =>
  match (positions ← HedgeService.getHedgeByTxHash txHash;
         hedgeLog ← HedgeService.getHedgeLog txHash;
         mret (positions, hedgeLog)) w with
  | (Returned (positions, hedgeLog), w') =>
      ({| hedges_status := 200; hedges_positions := positions; hedges_log := hedgeLog |}, w')
  | (Thrown _, w') =>
      ({| hedges_status := 500; hedges_positions := []; hedges_log := None |}, w')
  end.

(** ** Configuration ([config/index.ts]) *)

Module Config.

Record t := {
  ethereum_rpcUrl : string;
  ethereum_privateKey : string;
  ethereum_krwwContractAddress : string;
  ethereum_wonderContractAddress : string;
  ethereum_depositContractAddress : string;
  binance_apiKey : string;
  binance_secretKey : string;
  binance_testnet : bool;
  cme_apiKey : string;
  cme_secretKey : string;
  cme_environment : string;
  hyperliquid_privateKey : string;
  hyperliquid_walletAddress : string;
  hyperliquid_testnet : bool;
  bybit_apiKey : string;
  bybit_secretKey : string;
  bybit_testnet : bool;
  redis_url : string
}.

(** [process.env.NAME || fallback]: an unset or empty variable gives the
    fallback. *)
Definition envOr (penv : gmap string string) (name fallback : string) : string :=
  match penv !! name with
  | Some value => if String.eqb value "" then fallback else value
  | None => fallback
  end.

(** [process.env.NAME === 'true']. *)
Definition envTrue (penv : gmap string string) (name : string) : bool :=
  match penv !! name with
  | Some value => String.eqb value "true"
  | None => false
  end.

Definition config (penv : gmap string string) : t :=
  {| ethereum_rpcUrl := envOr penv "ETH_RPC_URL" "";
     ethereum_privateKey := envOr penv "PRIVATE_KEY" "";
     ethereum_krwwContractAddress := envOr penv "KRWW_CONTRACT_ADDRESS" "";
     ethereum_wonderContractAddress := envOr penv "WONDER_CONTRACT_ADDRESS" "";
     ethereum_depositContractAddress := envOr penv "DEPOSIT_CONTRACT_ADDRESS" "";
     binance_apiKey := envOr penv "BINANCE_API_KEY" "";
     binance_secretKey := envOr penv "BINANCE_SECRET_KEY" "";
     binance_testnet := envTrue penv "BINANCE_TESTNET";
     cme_apiKey := envOr penv "CME_API_KEY" "";
     cme_secretKey := envOr penv "CME_SECRET_KEY" "";
     cme_environment := envOr penv "CME_ENVIRONMENT" "production";
     hyperliquid_privateKey := envOr penv "HYPERLIQUID_PRIVATE_KEY" "";
     hyperliquid_walletAddress := envOr penv "HYPERLIQUID_WALLET_ADDRESS" "";
     hyperliquid_testnet := envTrue penv "HYPERLIQUID_TESTNET";
     bybit_apiKey := envOr penv "BYBIT_API_KEY" "";
     bybit_secretKey := envOr penv "BYBIT_SECRET_KEY" "";
     bybit_testnet := envTrue penv "BYBIT_TESTNET";
     redis_url := envOr penv "REDIS_URL" "redis://localhost:6379" |}.

(** [field.split('.').reduce((obj, key) => obj?.[key], config)] for the
    string fields: the value at a dotted path, [undefined] when there is no
    such path. *)
Definition valueAt (c : t) (field : string) : option string :=
  if String.eqb field "ethereum.rpcUrl" then Some (ethereum_rpcUrl c)
  else if String.eqb field "ethereum.privateKey" then Some (ethereum_privateKey c)
  else if String.eqb field "ethereum.krwwContractAddress" then Some (ethereum_krwwContractAddress c)
  else if String.eqb field "ethereum.wonderContractAddress" then Some (ethereum_wonderContractAddress c)
  else if String.eqb field "ethereum.depositContractAddress" then Some (ethereum_depositContractAddress c)
  else if String.eqb field "binance.apiKey" then Some (binance_apiKey c)
  else if String.eqb field "binance.secretKey" then Some (binance_secretKey c)
  else if String.eqb field "cme.apiKey" then Some (cme_apiKey c)
  else if String.eqb field "cme.secretKey" then Some (cme_secretKey c)
  else if String.eqb field "cme.environment" then Some (cme_environment c)
  else if String.eqb field "hyperliquid.privateKey" then Some (hyperliquid_privateKey c)
  else if String.eqb field "hyperliquid.walletAddress" then Some (hyperliquid_walletAddress c)
  else if String.eqb field "bybit.apiKey" then Some (bybit_apiKey c)
  else if String.eqb field "bybit.secretKey" then Some (bybit_secretKey c)
  else if String.eqb field "redis.url" then Some (redis_url c)
  else None.

Definition requiredFields : list string :=
  [ "ethereum.rpcUrl"; "ethereum.privateKey"; "ethereum.depositContractAddress";
    "binance.apiKey"; "binance.secretKey";
    "hyperliquid.privateKey"; "hyperliquid.walletAddress";
    "bybit.apiKey"; "bybit.secretKey" ].

(** The loop of [validateConfig] over a list of fields: the first field
    whose value is falsy (missing or empty) throws. *)
Fixpoint validateFields (c : t) (fields : list string) : Outcome unit :=
  match fields with
  | [] => Returned tt
  | field :: fields' =>
      match valueAt c field with
      | Some value =>
          if String.eqb value ""
          then Thrown ("Missing required configuration field: " +:+ field)
          else validateFields c fields'
      | None => Thrown ("Missing required configuration field: " +:+ field)
      end
  end.

Definition validateConfig (c : t) : Outcome unit := validateFields c requiredFields.

End Config.

(** ** Consistency of the deposit index

    The time-ordered index and the deposit documents agree: the entries are
    in ascending score order, no hash has two entries, and every entry's
    hash has a document that carries that hash and, as detection time, the
    entry's score. *)
Definition depositIndexOk (r : Redis) : Prop :=
  let index := RedisClient.entries r "deposits:timestamp" in
  StronglySorted (fun a b : Z * string => a.1 <= b.1) index /\
  NoDup (map snd index) /\
  forall score tx, (score, tx) ∈ index ->
    exists d, depositDocs r !! ("deposit:" +:+ tx) = Some d /\
              dep_timestamp d = score /\ transactionHash d = tx.

(** The entries of a reconciliation query that are decoded event logs,
    the ones the loop handles. *)
Definition decoded (events : list Reconciliation.ChainEvent) : list Reconciliation.ChainEvent :=
  List.filter Reconciliation.isEventLog events.

Definition eventTx (event : Reconciliation.ChainEvent) : string :=
  DepositMonitor.e_transactionHash (Reconciliation.eventLog event).

Definition eventBlock (event : Reconciliation.ChainEvent) : Z :=
  DepositMonitor.e_blockNumber (Reconciliation.eventLog event).

(** A chain on which three deposit logs lie between the monitor's last
    processed block and the head: two deposits, the first of them returned
    twice, and one entry that is not a decoded log. *)
Module ChainScenario.

Definition first : Reconciliation.ChainEvent :=
  {| Reconciliation.isEventLog := true;
     Reconciliation.arg_user := "0xdepositor";
     Reconciliation.arg_amount := 1000000000000000000;
     Reconciliation.arg_krwwMinted := 2700000000000000000000000;
     Reconciliation.eventLog := Scenario.depositLog |}.

Definition second : Reconciliation.ChainEvent :=
  {| Reconciliation.isEventLog := true;
     Reconciliation.arg_user := "0xother";
     Reconciliation.arg_amount := 2000000000000000000;
     Reconciliation.arg_krwwMinted := 5400000000000000000000000;
     Reconciliation.eventLog :=
       {| DepositMonitor.e_blockNumber := 19000007;
          DepositMonitor.e_transactionHash := "0xdef" |} |}.

Definition undecoded : Reconciliation.ChainEvent :=
  {| Reconciliation.isEventLog := false;
     Reconciliation.arg_user := "";
     Reconciliation.arg_amount := 0;
     Reconciliation.arg_krwwMinted := 0;
     Reconciliation.eventLog :=
       {| DepositMonitor.e_blockNumber := 19000009;
          DepositMonitor.e_transactionHash := "0x999" |} |}.

Definition chain : Reconciliation.Provider :=
  {| Reconciliation.getBlockNumber := Returned 19000010;
     Reconciliation.queryFilter := fun fromBlock toBlock =>
       if (fromBlock <=? 19000000) && (19000009 <=? toBlock)
       then Returned [first; second; undecoded; first]
       else Returned [] |}.

Definition clocks (i : nat) : Env :=
  match i with
  | O => Scenario.allFill
  | _ => Scenario.later
  end.

(** A provider that cannot be reached. *)
Definition down : Reconciliation.Provider :=
  {| Reconciliation.getBlockNumber := Thrown "ECONNREFUSED";
     Reconciliation.queryFilter := fun _ _ => Thrown "ECONNREFUSED" |}.

End ChainScenario.

(** ** Sanity of the number and string primitives *)

Lemma floor_examples :
  (JS.floor 45.6 = 45 /\ JS.floor 0.3 = 0 /\ JS.floor (-0.3) = -1 /\
   JS.floor (-2) = -2 /\ JS.floor (-2.5) = -3 /\
   JS.floor 123456789.75 = 123456789 /\ JS.floor (0.3 / 0.1) = 2 /\
   JS.floor infinity = infinity /\ JS.floor nan = nan)%float.
Proof. repeat split; vm_compute; reflexivity. Qed.

Lemma max_examples :
  (JS.max 0.045 0.01 = 0.045 /\ JS.max 0 0.01 = 0.01 /\ JS.max (-0) 0 = 0 /\
   JS.max 0 (-0) = 0 /\ JS.max nan 1 = nan /\ JS.max 1 nan = nan)%float.
Proof. repeat split; vm_compute; reflexivity. Qed.

Lemma string_examples :
  splitHead "_" "bybit_failed_1700000000000" = "bybit" /\
  splitHead "_" "noseparator" = "noseparator" /\
  replace "binance_" "" "binance_1001" = "1001" /\
  replace "cme_" "" "cme_fallback_17" = "fallback_17" /\
  replace "cme_" "" "xcme_cme_1" = "xcme_1".
Proof. repeat split. Qed.

Lemma json_examples :
  (JSON.number 1.5 = Some 1.5 /\ JSON.number 0 = Some 0 /\ JSON.number (-0) = Some 0 /\
   JSON.number nan = None /\ JSON.number infinity = None /\
   JSON.number neg_infinity = None /\ JSON.number (0 / 0) = None)%float.
Proof. repeat split; vm_compute; reflexivity. Qed.

Lemma range_examples :
  RedisClient.range 0 1 ["c"; "b"; "a"] = ["c"; "b"] /\
  RedisClient.range 0 99 ["c"; "b"; "a"] = ["c"; "b"; "a"] /\
  RedisClient.range 0 (-1) ["c"; "b"; "a"] = ["c"; "b"; "a"] /\
  RedisClient.range 0 (-2) ["c"; "b"; "a"] = ["c"; "b"] /\
  RedisClient.range 0 (-4) ["c"; "b"; "a"] = [] /\
  RedisClient.range 1 (-1) ["c"; "b"; "a"] = ["b"; "a"] /\
  RedisClient.range (-2) (-1) ["c"; "b"; "a"] = ["b"; "a"] /\
  RedisClient.range 3 5 ["c"; "b"; "a"] = [] /\
  RedisClient.range 0 0 ([] : list string) = [].
Proof. repeat split. Qed.

(** The key families of the store do not overlap, whatever the hashes. *)
Lemma key_families_disjoint (a b : string) :
  "hedge:" +:+ a <> "hedge_log:" +:+ b /\
  "hedge:" +:+ a <> "hedge_index:" +:+ b /\
  "hedge:" +:+ a <> "deposit:" +:+ b /\
  "hedge_log:" +:+ a <> "hedge_index:" +:+ b /\
  "hedge_log:" +:+ a <> "deposit:" +:+ b /\
  "hedge_index:" +:+ a <> "deposit:" +:+ b /\
  "deposit:" +:+ a <> "deposits:timestamp" /\
  "hedge_log:" +:+ a <> "hedge_requests" /\
  "hedge_index:" +:+ a <> "hedge_requests" /\
  "hedge:" +:+ a <> "hedge_requests" /\
  "hedge:" +:+ a <> "last_processed_block" /\
  "deposit:" +:+ a <> "last_processed_block".
Proof. repeat split; cbn; discriminate. Qed.

(** ** The monad on a reachable and on an unreachable store *)

Ltac unfold_monad :=
  unfold mbind, M_bind, mret, M_ret, tryCatch, throw, settle, invoke,
    RedisClient.command.

Lemma setRedis_id (w : World) : setRedis (redis w) w = w.
Proof. now destruct w. Qed.

Lemma bind_returned {A B} (m : M A) (f : A -> M B) (w w' : World) (a : A) :
  m w = (Returned a, w') -> (m ≫= f) w = f a w'.
Proof. intros H. unfold mbind, M_bind. now rewrite H. Qed.

Lemma bind_thrown {A B} (m : M A) (f : A -> M B) (w w' : World) (e : string) :
  m w = (Thrown e, w') -> (m ≫= f) w = (Thrown e, w').
Proof. intros H. unfold mbind, M_bind. now rewrite H. Qed.

Lemma tryCatch_returned {A} (body : M A) (handler : string -> M A) (w w' : World) (a : A) :
  body w = (Returned a, w') -> tryCatch body handler w = (Returned a, w').
Proof. intros H. unfold tryCatch. now rewrite H. Qed.

Lemma command_online {A} (f : Redis -> A * Redis) (w : World) :
  online (redis w) = true ->
  RedisClient.command f w = (Returned (f (redis w)).1, setRedis (f (redis w)).2 w).
Proof. intros H. unfold RedisClient.command. rewrite H. now destruct (f (redis w)). Qed.

Lemma command_offline {A} (f : Redis -> A * Redis) (w : World) :
  online (redis w) = false ->
  RedisClient.command f w = (Thrown "The client is closed", w).
Proof. intros H. unfold RedisClient.command. now rewrite H. Qed.

Lemma getHedgeByTxHash_offline (txHash : string) (w : World) :
  online (redis w) = false ->
  HedgeService.getHedgeByTxHash txHash w = (Returned [], w).
Proof.
  intros Hoff. unfold HedgeService.getHedgeByTxHash, RedisClient.sMembers, tryCatch.
  erewrite bind_thrown by (now apply command_offline). reflexivity.
Qed.

Lemma lookup_fold (txHash : string) (w : World) (ids : list string) (acc : list HedgePosition) :
  online (redis w) = true ->
  foldM (fun positions positionId =>
           let type := splitHead "_" positionId in
           let key := "hedge:" +:+ txHash +:+ ":" +:+ type in
           positionData ← RedisClient.getPosition key;
           mret (match positionData with
                 | Some position => positions ++ [position]
                 | None => positions
                 end))
        acc ids w
  = (Returned (acc ++ omap (fun positionId =>
       positionDocs (redis w) !! ("hedge:" +:+ txHash +:+ ":" +:+ splitHead "_" positionId)) ids), w).
Proof.
  intros Hon. revert acc. induction ids as [|i ids IH]; intros acc.
  - cbn. unfold_monad. now rewrite app_nil_r.
  - cbn [foldM].
    rewrite (bind_returned _ _ w w
      (match positionDocs (redis w) !! ("hedge:" +:+ txHash +:+ ":" +:+ splitHead "_" i) with
       | Some position => acc ++ [position]
       | None => acc
       end)).
    + rewrite IH. cbn [omap list_omap].
      destruct (positionDocs (redis w) !! _) as [p|]; [|reflexivity].
      now rewrite <- app_assoc.
    + cbv zeta. unfold RedisClient.getPosition.
      rewrite (bind_returned _ _ w w
        (positionDocs (redis w) !! ("hedge:" +:+ txHash +:+ ":" +:+ splitHead "_" i))).
      * reflexivity.
      * rewrite command_online by assumption. cbn [fst snd]. now rewrite setRedis_id.
Qed.

Lemma getHedgeByTxHash_online (txHash : string) (w : World) :
  online (redis w) = true ->
  HedgeService.getHedgeByTxHash txHash w = (Returned (storedPositions (redis w) txHash), w).
Proof.
  intros Hon. unfold HedgeService.getHedgeByTxHash, RedisClient.sMembers, tryCatch.
  rewrite (bind_returned _ _ w w
    (elements (RedisClient.members (redis w) ("hedge_index:" +:+ txHash)))).
  - now rewrite lookup_fold.
  - rewrite command_online by assumption. cbn [fst snd]. now rewrite setRedis_id.
Qed.

Lemma storeOne_online (txHash : string) (p : HedgePosition) (r : Redis) :
  online (storeOne txHash p r) = online r.
Proof. reflexivity. Qed.

Lemma storeAll_online (txHash : string) (ps : list HedgePosition) (r : Redis) :
  online (storeAll txHash ps r) = online r.
Proof.
  revert r. induction ps as [|p ps IH]; intros r; [reflexivity|].
  unfold storeAll in *. cbn [fold_left]. now rewrite IH.
Qed.

Lemma storeAll_logDocs (txHash : string) (ps : list HedgePosition) (r : Redis) :
  logDocs (storeAll txHash ps r) = logDocs r.
Proof.
  revert r. induction ps as [|p ps IH]; intros r; [reflexivity|].
  unfold storeAll in *. cbn [fold_left]. now rewrite IH.
Qed.

Lemma storeHedgePosition_online (txHash : string) (p : HedgePosition) (w : World) :
  online (redis w) = true ->
  HedgeService.storeHedgePosition txHash p w
  = (Returned tt, setRedis (storeOne txHash p (redis w)) w).
Proof.
  intros Hon. unfold HedgeService.storeHedgePosition, tryCatch. cbv zeta.
  unfold RedisClient.setExPosition, RedisClient.sAdd.
  rewrite (bind_returned _ _ w
    (setRedis (RedisClient.withPositionDocs
       <["hedge:" +:+ txHash +:+ ":" +:+ typeName (type p) := p]> (redis w)) w) tt).
  - rewrite command_online by exact Hon. reflexivity.
  - now rewrite command_online.
Qed.

Lemma storeHedgePosition_offline (txHash : string) (p : HedgePosition) (w : World) :
  online (redis w) = false ->
  HedgeService.storeHedgePosition txHash p w = (Returned tt, w).
Proof.
  intros Hoff. unfold HedgeService.storeHedgePosition, tryCatch. cbv zeta.
  unfold RedisClient.setExPosition.
  erewrite bind_thrown by (now apply command_offline). reflexivity.
Qed.

Lemma forEach_store (txHash : string) (ps : list HedgePosition) (w : World) :
  online (redis w) = true ->
  forEach (HedgeService.storeHedgePosition txHash) ps w
  = (Returned tt, setRedis (storeAll txHash ps (redis w)) w).
Proof.
  revert w. induction ps as [|p ps IH]; intros w Hon.
  - cbn. now rewrite setRedis_id.
  - cbn [forEach].
    rewrite (bind_returned _ _ w (setRedis (storeOne txHash p (redis w)) w) tt)
      by now apply storeHedgePosition_online.
    rewrite IH by exact Hon. reflexivity.
Qed.

Lemma logHedgeExecution_online (env : Env) (request : HedgeRequest)
    (ps : list HedgePosition) (n : Z) (w : World) :
  online (redis w) = true ->
  HedgeService.logHedgeExecution env request ps n w
  = (Returned tt,
     setRedis (RedisClient.withLogDocs
       <["hedge_log:" +:+ depositTxHash request := executionLogOf env request ps n]>
       (redis w)) w).
Proof.
  intros Hon. unfold HedgeService.logHedgeExecution, tryCatch. cbv zeta.
  unfold RedisClient.setExLog. now rewrite command_online.
Qed.

(** The fan-out settles the four promises, touches no store, and invokes
    the adapters of [hedgeCalls]. *)
Lemma hedgePromises_run (env : Env) (request : HedgeRequest) (w : World) :
  HedgeService.hedgePromises env request w
  = (Returned (hedgeOutcomes env request), addCalls (hedgeCalls env request) w).
Proof.
  unfold HedgeService.hedgePromises, hedgeOutcomes, hedgeCalls,
    HedgeService.executeBinanceHedge, HedgeService.executeCMEHedge,
    HedgeService.executeHyperliquidHedge, HedgeService.executeBybitHedge, addCalls.
  generalize (BinanceService.createShortPosition env "ETHUSDT" (ethAmount request)).
  generalize (HyperliquidService.createShortPosition env "ETH" (ethAmount request)).
  generalize (BybitService.createShortPosition env "ETHUSDT" (ethAmount request)).
  generalize (BinanceService.getCurrentPrice env "ETHUSDT").
  intros price by_ hl bn.
  unfold_monad. unfold Outcome_bind.
  destruct bn, price as [ethPrice|]; cbn.
  all: try (generalize (CMEService.createKRWUSDShortPosition env
              (ethAmount request * ethPrice)%float); intros cm; destruct cm).
  all: destruct hl, by_; cbn; repeat rewrite <- app_assoc; reflexivity.
Qed.

Lemma hedgeOutcomes_length (env : Env) (request : HedgeRequest) :
  length (hedgeOutcomes env request) = 4%nat.
Proof. reflexivity. Qed.

(** What one execution does on a reachable store that holds no record for
    the hash. *)
Lemma executeHedge_fresh (env : Env) (request : HedgeRequest) (w : World) :
  online (redis w) = true ->
  storedPositions (redis w) (depositTxHash request) = [] ->
  HedgeService.executeHedge env request w
  = (Returned tt,
     {| redis :=
          RedisClient.withLogDocs
            <["hedge_log:" +:+ depositTxHash request :=
                executionLogOf env request
                  (HedgeService.aggregate (hedgeOutcomes env request)).2
                  (HedgeService.aggregate (hedgeOutcomes env request)).1]>
            (storeAll (depositTxHash request)
               (HedgeService.aggregate (hedgeOutcomes env request)).2 (redis w));
        calls := calls w ++ hedgeCalls env request;
        lastProcessedBlock := lastProcessedBlock w |}).
Proof.
  intros Hon Hfresh. unfold HedgeService.executeHedge, tryCatch.
  rewrite (bind_returned _ _ w w []).
  2:{ rewrite getHedgeByTxHash_online by exact Hon. now rewrite Hfresh. }
  cbn [length Nat.ltb Nat.leb].
  rewrite (bind_returned _ _ w (addCalls (hedgeCalls env request) w)
             (hedgeOutcomes env request)) by apply hedgePromises_run.
  destruct (HedgeService.aggregate (hedgeOutcomes env request)) as [n ps] eqn:E.
  rewrite (bind_returned _ _ _
    (setRedis (storeAll (depositTxHash request) ps (redis w))
       (addCalls (hedgeCalls env request) w)) tt).
  2:{ rewrite forEach_store by exact Hon. reflexivity. }
  rewrite logHedgeExecution_online.
  - reflexivity.
  - cbn. now rewrite storeAll_online.
Qed.

(** The idempotency guard: with a record found for the hash the routine
    returns at once. *)
Lemma executeHedge_guard (env : Env) (request : HedgeRequest) (w : World) :
  online (redis w) = true ->
  storedPositions (redis w) (depositTxHash request) <> [] ->
  HedgeService.executeHedge env request w = (Returned tt, w).
Proof.
  intros Hon Hsome. unfold HedgeService.executeHedge, tryCatch.
  rewrite (bind_returned _ _ w w (storedPositions (redis w) (depositTxHash request)))
    by now apply getHedgeByTxHash_online.
  destruct (storedPositions (redis w) (depositTxHash request)); [congruence|].
  reflexivity.
Qed.

(** ** What the adapters return *)

Ltac plain_scrutinee o :=
  lazymatch o with
  | context [match _ with Returned _ => _ | Thrown _ => _ end] => fail
  | context [match _ with Some _ => _ | None => _ end] => fail
  | context [match _ with [] => _ | _ :: _ => _ end] => fail
  | context [if _ then _ else _] => fail
  | _ => idtac
  end.

(** Case analysis on what the environment answers, innermost call first. *)
Ltac case_outcomes :=
  repeat match goal with
         | |- context [match ?o with Returned _ => _ | Thrown _ => _ end] =>
             plain_scrutinee o; destruct o; cbn
         | |- context [match ?o with Some _ => _ | None => _ end] =>
             plain_scrutinee o; destruct o; cbn
         | |- context [match ?l with [] => _ | _ :: _ => _ end] =>
             plain_scrutinee l; destruct l; cbn
         | |- context [let (_, _) := ?x in _] => plain_scrutinee x; destruct x; cbn
         | |- context [if ?b then _ else _] => plain_scrutinee b; destruct b; cbn
         end.

(** The Bybit adapter never throws: an order that fails is reported by a
    record of state [failed]. *)
Lemma bybit_createShortPosition_returns (env : Env) (symbol : string) (ethAmount : JS.number) :
  exists p, BybitService.createShortPosition env symbol ethAmount = Returned p /\
            type p = bybit /\ wellFormed p.
Proof.
  unfold BybitService.createShortPosition, BybitService.getTicker,
    BybitService.getInstrumentInfo, BybitService.getOrderStatus, BybitService.firstOf,
    catch, mbind, Outcome_bind, mret, Outcome_ret, wellFormed.
  case_outcomes; eexists; (split; [reflexivity|split; reflexivity]).
Qed.

Lemma hyperliquid_createShortPosition_returns (env : Env) (coin : string) (ethAmount : JS.number) :
  exists p, HyperliquidService.createShortPosition env coin ethAmount = Returned p /\
            type p = hyperliquid /\ wellFormed p.
Proof.
  unfold HyperliquidService.createShortPosition, HyperliquidService.getMarketData,
    catch, mbind, Outcome_bind, mret, Outcome_ret, wellFormed.
  case_outcomes; eexists; (split; [reflexivity|split; reflexivity]).
Qed.

Lemma cme_createKRWUSDShortPosition_returns (env : Env) (usdValue : JS.number) :
  exists p, CMEService.createKRWUSDShortPosition env usdValue = Returned p /\
            type p = cme /\ wellFormed p.
Proof.
  unfold CMEService.createKRWUSDShortPosition, CMEService.getCurrentKRWUSDPrice,
    catch, mbind, Outcome_bind, mret, Outcome_ret, wellFormed.
  case_outcomes; eexists; (split; [reflexivity|split; reflexivity]).
Qed.

Lemma binance_createShortPosition_wellFormed (env : Env) (symbol : string)
    (ethAmount : JS.number) (p : HedgePosition) :
  BinanceService.createShortPosition env symbol ethAmount = Returned p ->
  type p = binance /\ wellFormed p.
Proof.
  unfold BinanceService.createShortPosition,
    catch, mbind, Outcome_bind, mret, Outcome_ret, wellFormed.
  case_outcomes; intros [= <-]; split; reflexivity.
Qed.

(** Every record of an execution's fan-out is well formed. *)
Lemma hedgeOutcomes_wellFormed (env : Env) (request : HedgeRequest) (p : HedgePosition) :
  Returned p ∈ hedgeOutcomes env request -> wellFormed p.
Proof.
  unfold hedgeOutcomes. rewrite !elem_of_cons, elem_of_nil.
  intros [H|[H|[H|[H|[]]]]]; symmetry in H.
  - now apply binance_createShortPosition_wellFormed in H.
  - destruct (BinanceService.getCurrentPrice env "ETHUSDT") as [x|]; [|discriminate].
    cbn in H. destruct (cme_createKRWUSDShortPosition_returns env
      (ethAmount request * x)%float) as (q & Hq & _ & Hwf). congruence.
  - destruct (hyperliquid_createShortPosition_returns env "ETH" (ethAmount request))
      as (q & Hq & _ & Hwf). congruence.
  - destruct (bybit_createShortPosition_returns env "ETHUSDT" (ethAmount request))
      as (q & Hq & _ & Hwf). congruence.
Qed.

(** ** Stored records *)

Lemma storeOne_stored (txHash : string) (p : HedgePosition) (r : Redis) :
  stored (storeOne txHash p r) txHash p.
Proof.
  unfold stored, storeOne, RedisClient.members. cbn. split.
  - apply lookup_insert_eq.
  - rewrite lookup_insert_eq. cbn. set_solver.
Qed.

Lemma stored_found (r : Redis) (txHash : string) (p : HedgePosition) :
  stored r txHash p -> wellFormed p -> p ∈ storedPositions r txHash.
Proof.
  intros [Hdoc Hidx] Hwf. unfold storedPositions.
  apply list_elem_of_omap. exists (id p). split.
  - now apply elem_of_elements.
  - now rewrite Hwf.
Qed.

Lemma stored_nonempty (r : Redis) (txHash : string) (p : HedgePosition) :
  stored r txHash p -> wellFormed p -> storedPositions r txHash <> [].
Proof.
  intros Hs Hwf Hnil. apply (stored_found r txHash p) in Hs; [|exact Hwf].
  rewrite Hnil in Hs. now apply elem_of_nil in Hs.
Qed.

Lemma storeAll_snoc (txHash : string) (ps : list HedgePosition) (p : HedgePosition) (r : Redis) :
  storeAll txHash (ps ++ [p]) r = storeOne txHash p (storeAll txHash ps r).
Proof. unfold storeAll. now rewrite fold_left_app. Qed.

Lemma aggregate_snoc (results : list (Outcome HedgePosition)) (v : HedgePosition) :
  HedgeService.aggregate (results ++ [Returned v])
  = ((HedgeService.aggregate results).1 + 1, (HedgeService.aggregate results).2 ++ [v]).
Proof. unfold HedgeService.aggregate. now rewrite fold_left_app. Qed.

(** The code's count: [successCount] is the number of records kept, whatever
    their state. *)
Lemma aggregate_count (results : list (Outcome HedgePosition)) :
  (HedgeService.aggregate results).1 = Z.of_nat (length (HedgeService.aggregate results).2).
Proof.
  induction results as [|x results IH] using rev_ind; [reflexivity|].
  destruct x as [v|e].
  - rewrite aggregate_snoc. cbn [fst snd]. rewrite length_app, IH. cbn. lia.
  - unfold HedgeService.aggregate in *. rewrite fold_left_app. cbn. exact IH.
Qed.

(** The Bybit record is the last one an execution stores. *)
Lemma aggregate_hedgeOutcomes_last (env : Env) (request : HedgeRequest) :
  exists ps p, (HedgeService.aggregate (hedgeOutcomes env request)).2 = ps ++ [p] /\
               wellFormed p.
Proof.
  destruct (bybit_createShortPosition_returns env "ETHUSDT" (ethAmount request))
    as (p & Hp & _ & Hwf).
  unfold hedgeOutcomes. rewrite Hp.
  change [?a; ?b; ?c; Returned p] with ([a; b; c] ++ [Returned p]).
  rewrite aggregate_snoc. cbn [snd]. eauto.
Qed.

(** ** The close-out *)

Lemma getHedgeByTxHash_run (txHash : string) (w : World) :
  HedgeService.getHedgeByTxHash txHash w = (Returned (foundPositions (redis w) txHash), w).
Proof.
  unfold foundPositions. destruct (online (redis w)) eqn:Hon.
  - now apply getHedgeByTxHash_online.
  - now apply getHedgeByTxHash_offline.
Qed.

Lemma closeOne_run (env : Env) (p : HedgePosition) (w : World) :
  HedgeService.closeOne env p w = (closeResult env p, addCalls [closeCall p] w).
Proof.
  unfold HedgeService.closeOne, closeResult, closeCall. now destruct (type p).
Qed.

Lemma addCalls_addCalls (cs1 cs2 : list VenueCall) (w : World) :
  addCalls cs2 (addCalls cs1 w) = addCalls (cs1 ++ cs2) w.
Proof. unfold addCalls. cbn. now rewrite app_assoc. Qed.

Lemma addCalls_nil (w : World) : addCalls [] w = w.
Proof. unfold addCalls. destruct w. cbn. now rewrite app_nil_r. Qed.

Lemma close_fold (env : Env) (ps : list HedgePosition) (allClosed : bool) (w : World) :
  foldM (fun allClosed position =>
           tryCatch
             (success ← HedgeService.closeOne env position;
              mret (if negb success then false else allClosed))
             (fun _ => mret false))
        allClosed ps w
  = (Returned (allClosed && forallb (closeSucceeds env) ps), addCalls (map closeCall ps) w).
Proof.
  revert allClosed w. induction ps as [|p ps IH]; intros allClosed w.
  - cbn. unfold mret, M_ret. now rewrite andb_true_r, addCalls_nil.
  - cbn [foldM map forallb].
    rewrite (bind_returned _ _ w (addCalls [closeCall p] w)
               (allClosed && closeSucceeds env p)).
    + rewrite IH, addCalls_addCalls. now rewrite andb_assoc.
    + unfold tryCatch, mbind, M_bind. rewrite closeOne_run. unfold closeSucceeds.
      destruct (closeResult env p) as [[|]|]; cbn;
        now rewrite ?andb_true_r, ?andb_false_r.
Qed.

(** The close-out reads the records, makes one close call per record found
    and answers whether all of them succeeded; it writes nothing. *)
Lemma closeHedgePositions_run (env : Env) (txHash : string) (w : World) :
  HedgeService.closeHedgePositions env txHash w
  = (Returned (forallb (closeSucceeds env) (foundPositions (redis w) txHash)),
     addCalls (map closeCall (foundPositions (redis w) txHash)) w).
Proof.
  unfold HedgeService.closeHedgePositions. apply tryCatch_returned.
  rewrite (bind_returned _ _ w w (foundPositions (redis w) txHash))
    by apply getHedgeByTxHash_run.
  now rewrite close_fold.
Qed.

Lemma executeAll_stable (runs : list (Env * HedgeRequest)) (w : World) :
  Forall (fun run => HedgeService.executeHedge run.1 run.2 w = (Returned tt, w)) runs ->
  executeAll runs w = w.
Proof.
  induction 1 as [|[env request] runs Hrun _ IH]; [reflexivity|].
  cbn in *. now rewrite Hrun.
Qed.

(** ** The sorted index *)

Section SortedSet.
Context (member : string).

Lemma occurrences_zremove (l : list (Z * string)) :
  occurrences member (RedisClient.zremove member l) = 0%nat.
Proof.
  unfold occurrences, RedisClient.zremove.
  induction l as [|x l IH]; [reflexivity|]. cbn.
  destruct (String.eqb x.2 member) eqn:E; cbn; [exact IH|].
  now rewrite E.
Qed.

Lemma occurrences_zinsert (score : Z) (l : list (Z * string)) :
  occurrences member (RedisClient.zinsert (score, member) l)
  = S (occurrences member l).
Proof.
  unfold occurrences. induction l as [|x l IH]; cbn.
  - now rewrite String.eqb_refl.
  - destruct (RedisClient.entryLe (score, member) x); cbn.
    + now rewrite String.eqb_refl.
    + destruct (String.eqb x.2 member); cbn; now rewrite IH.
Qed.

Lemma zremove_zinsert (score : Z) (l : list (Z * string)) :
  RedisClient.zremove member (RedisClient.zinsert (score, member) l)
  = RedisClient.zremove member l.
Proof.
  unfold RedisClient.zremove. induction l as [|x l IH]; cbn.
  - now rewrite String.eqb_refl.
  - destruct (RedisClient.entryLe (score, member) x); cbn.
    + now rewrite String.eqb_refl.
    + destruct (String.eqb x.2 member); cbn; now rewrite IH.
Qed.

Lemma zremove_zremove (l : list (Z * string)) :
  RedisClient.zremove member (RedisClient.zremove member l)
  = RedisClient.zremove member l.
Proof.
  unfold RedisClient.zremove. induction l as [|x l IH]; [reflexivity|]. cbn.
  destruct (String.eqb x.2 member) eqn:E; cbn; [exact IH|].
  rewrite E. cbn. now rewrite IH.
Qed.

End SortedSet.

(** ** The deposit handler on a reachable store *)

Lemma handleDepositEvent_online (env : Env) (user : string) (amount krwwMinted : Z)
    (event : DepositMonitor.EventLog) (w : World) :
  online (redis w) = true ->
  let w' := (DepositMonitor.handleDepositEvent env user amount krwwMinted event w).2 in
  let tx := DepositMonitor.e_transactionHash event in
  online (redis w') = true /\
  depositDocs (redis w')
    = <["deposit:" +:+ tx := depositEventOf env user amount krwwMinted event]>
        (depositDocs (redis w)) /\
  RedisClient.entries (redis w') "deposits:timestamp"
    = RedisClient.zinsert (now env, tx)
        (RedisClient.zremove tx (RedisClient.entries (redis w) "deposits:timestamp")) /\
  RedisClient.items (redis w') "hedge_requests"
    = DepositMonitor.hedgeRequestOf env (depositEventOf env user amount krwwMinted event)
        :: RedisClient.items (redis w) "hedge_requests" /\
  calls w' = calls w.
Proof.
  intros Hon.
  unfold DepositMonitor.handleDepositEvent, DepositMonitor.storeDepositEvent,
    DepositMonitor.queueHedgeRequest, DepositMonitor.updateLastProcessedBlock,
    DepositMonitor.setLastProcessedBlock,
    RedisClient.setExDeposit, RedisClient.zAdd, RedisClient.lPush, RedisClient.set.
  unfold_monad. cbn. rewrite Hon. cbn. rewrite Hon. cbn. rewrite Hon. cbn.
  destruct (lastProcessedBlock w <? DepositMonitor.e_blockNumber event); cbn.
  - rewrite Hon. cbn. unfold RedisClient.entries, RedisClient.items. cbn.
    rewrite !lookup_insert_eq. now rewrite Hon.
  - unfold RedisClient.entries, RedisClient.items. cbn.
    rewrite !lookup_insert_eq. now rewrite Hon.
Qed.

(** ** Properties of the pipeline *)

(** C3, as the specification states it, fails while the store cannot be
    reached: the lookup of existing positions throws, the error is
    swallowed and the lookup yields no position, so the first call writes
    no ExecutionLog and the second call invokes the venues again. *)
Lemma secondCallIsNoOp_fails :
  ~ secondCallIsNoOp Scenario.allFill Scenario.later Scenario.request0
      (Scenario.unreachable Scenario.world0).
Proof.
  intros [_ H].
  apply (f_equal (fun result => length (calls result.2))) in H.
  vm_compute in H. discriminate H.
Qed.

(** C3, amended. At-most-one execution without concurrency, on a reachable
    store: when the store holds no record for the deposit's hash, the first
    call of the execution routine stores its position records and writes
    one ExecutionLog under the hash; a second call for the same hash finds
    the stored positions and is a no-op: it returns with the store and the
    trace of venue calls exactly as the first call left them. *)
Theorem executeHedge_twice_executes_once
    (env1 env2 : Env) (request1 request2 : HedgeRequest) (w0 : World) :
  online (redis w0) = true ->
  storedPositions (redis w0) (depositTxHash request1) = [] ->
  depositTxHash request2 = depositTxHash request1 ->
  let w1 := (HedgeService.executeHedge env1 request1 w0).2 in
  let settled := HedgeService.aggregate (hedgeOutcomes env1 request1) in
  HedgeService.executeHedge env2 request2 w1 = (Returned tt, w1) /\
  storedPositions (redis w1) (depositTxHash request1) <> [] /\
  logDocs (redis w1)
    = <["hedge_log:" +:+ depositTxHash request1 :=
          executionLogOf env1 request1 settled.2 settled.1]> (logDocs (redis w0)) /\
  positionDocs (redis w1)
    = positionDocs (storeAll (depositTxHash request1) settled.2 (redis w0)) /\
  calls w1 = calls w0 ++ hedgeCalls env1 request1.
Proof.
  intros Hon Hfresh Htx w1 settled.
  assert (Hw1 : w1 = (HedgeService.executeHedge env1 request1 w0).2) by reflexivity.
  rewrite executeHedge_fresh in Hw1 by assumption. cbn [snd] in Hw1.
  fold settled in Hw1.
  assert (Hon1 : online (redis w1) = true).
  { rewrite Hw1. cbn. now rewrite storeAll_online. }
  assert (Hne : storedPositions (redis w1) (depositTxHash request1) <> []).
  { destruct (aggregate_hedgeOutcomes_last env1 request1) as (ps & p & Hps & Hwf).
    apply (stored_nonempty _ _ p); [|exact Hwf].
    rewrite Hw1. unfold settled. rewrite Hps, storeAll_snoc.
    exact (storeOne_stored _ p _). }
  split; [|split; [exact Hne|]].
  - apply executeHedge_guard; [exact Hon1|]. now rewrite Htx.
  - rewrite Hw1. cbn. now rewrite storeAll_logDocs.
Qed.

Lemma executeHedge_twice_executes_once_witness :
  let w1 := (HedgeService.executeHedge Scenario.allFill Scenario.request0 Scenario.world0).2 in
  HedgeService.executeHedge Scenario.later Scenario.request1 w1 = (Returned tt, w1).
Proof.
  apply (executeHedge_twice_executes_once Scenario.allFill Scenario.later
           Scenario.request0 Scenario.request1 Scenario.world0);
    vm_compute; reflexivity.
Defined.

(** C7, as the specification states it, fails while the store cannot be
    reached: with the [failed] Bybit record of an execution in which every
    venue was down stored for the hash, a later call whose lookup throws
    finds no position and invokes the venues again. *)
Lemma skipsStoredHash_fails :
  ~ skipsStoredHash Scenario.allFill Scenario.request0
      (Scenario.unreachable
         (HedgeService.executeHedge Scenario.allDown Scenario.request0 Scenario.world0).2).
Proof.
  intros H.
  specialize (H (BybitService.failedPosition Scenario.allDown "ETHUSDT" 100000%float)).
  assert (Hcalls : forall r : Outcome unit * World,
            r = (Returned tt,
                 Scenario.unreachable
                   (HedgeService.executeHedge Scenario.allDown Scenario.request0
                      Scenario.world0).2) ->
            length (calls r.2) = 4%nat).
  { intros r ->. vm_compute. reflexivity. }
  apply Hcalls in H.
  - vm_compute in H. discriminate H.
  - split; [vm_compute; reflexivity|]. vm_compute. set_solver.
  - reflexivity.
Qed.

(** C7, amended. A hash with a stored record is never executed again
    while the store is reachable: on a reachable store that holds at least
    one position record for a deposit's hash as [storeHedgePosition] leaves
    it, whatever the record's state (the [failed] records the adapters
    return included), every later call of the execution routine for that
    hash returns without invoking a venue and without writing; so does any
    sequence of such calls. The record's id starts with its venue's name,
    as the id of every record an adapter returns does
    ([hedgeOutcomes_wellFormed]). *)
Theorem stored_hash_never_reexecuted
    (w : World) (txHash : string) (p : HedgePosition) (runs : list (Env * HedgeRequest)) :
  online (redis w) = true ->
  stored (redis w) txHash p ->
  wellFormed p ->
  Forall (fun run => depositTxHash run.2 = txHash) runs ->
  Forall (fun run => HedgeService.executeHedge run.1 run.2 w = (Returned tt, w)) runs /\
  executeAll runs w = w.
Proof.
  intros Hon Hstored Hwf Hruns.
  assert (H : Forall (fun run => HedgeService.executeHedge run.1 run.2 w = (Returned tt, w)) runs).
  { eapply Forall_impl; [exact Hruns|]. intros [env request] Htx. cbn in *.
    apply executeHedge_guard; [exact Hon|]. rewrite Htx.
    now apply (stored_nonempty _ _ p). }
  split; [exact H|]. now apply executeAll_stable.
Qed.

Lemma stored_hash_never_reexecuted_witness :
  let w := (HedgeService.executeHedge Scenario.allDown Scenario.request0 Scenario.world0).2 in
  status (BybitService.failedPosition Scenario.allDown "ETHUSDT" 100000%float) = failed /\
  executeAll [(Scenario.allFill, Scenario.request0); (Scenario.later, Scenario.request1)] w = w.
Proof.
  split; [reflexivity|].
  apply (stored_hash_never_reexecuted _ Scenario.tx
           (BybitService.failedPosition Scenario.allDown "ETHUSDT" 100000%float)).
  - reflexivity.
  - split; [vm_compute; reflexivity|]. vm_compute. set_solver.
  - reflexivity.
  - repeat constructor.
Defined.

(** C8. Closing a deposit that was never hedged reports success: for a hash
    with no position record found (no record stored for it, or the store
    cannot be reached, in which case the lookup yields the empty list)
    [closeHedgePositions] invokes no venue, writes nothing and returns
    [true], and the close endpoint answers 200 with [success: true]. *)
Theorem closeHedgePositions_nothing_found (env : Env) (txHash : string) (w : World) :
  online (redis w) = false \/ storedPositions (redis w) txHash = [] ->
  HedgeService.getHedgeByTxHash txHash w = (Returned [], w) /\
  HedgeService.closeHedgePositions env txHash w = (Returned true, w) /\
  closeRoute env txHash w
    = ({| httpStatus := 200; success := Some true; message := "All positions closed" |}, w).
Proof.
  intros H.
  assert (Hnone : foundPositions (redis w) txHash = []).
  { unfold foundPositions. destruct H as [-> | ->]; [reflexivity|].
    now destruct (online (redis w)). }
  assert (Hclose : HedgeService.closeHedgePositions env txHash w = (Returned true, w)).
  { rewrite closeHedgePositions_run, Hnone. cbn. now rewrite addCalls_nil. }
  split; [|split; [exact Hclose|]].
  - now rewrite getHedgeByTxHash_run, Hnone.
  - unfold closeRoute. now rewrite Hclose.
Qed.

Lemma closeHedgePositions_nothing_found_witness :
  HedgeService.closeHedgePositions Scenario.allDown "0xunknown" Scenario.world0
    = (Returned true, Scenario.world0) /\
  HedgeService.closeHedgePositions Scenario.allFill Scenario.tx
      (Scenario.unreachable Scenario.threeOpen)
    = (Returned true, Scenario.unreachable Scenario.threeOpen).
Proof.
  split.
  - apply (closeHedgePositions_nothing_found Scenario.allDown "0xunknown" Scenario.world0).
    right. vm_compute. reflexivity.
  - apply (closeHedgePositions_nothing_found Scenario.allFill Scenario.tx
             (Scenario.unreachable Scenario.threeOpen)).
    left. reflexivity.
Defined.

(** C4, as the specification states it, fails: with three open positions
    stored and Bybit rejecting the closing order, the two positions whose
    close succeeded are still stored as [open] afterwards. *)
Lemma closeOutTransitions_fails :
  ~ closeOutTransitions Scenario.bybitRejects Scenario.tx Scenario.threeOpen.
Proof.
  intros [_ H]. specialize (H Scenario.openBinance).
  assert (Hin : Scenario.openBinance
                  ∈ foundPositions (redis Scenario.threeOpen) Scenario.tx).
  { apply list_elem_of_In. vm_compute.
    first [left; reflexivity | right; left; reflexivity | right; right; left; reflexivity]. }
  specialize (H Hin). vm_compute in H. discriminate H.
Qed.

(** C4, amended. Given three open positions found for a hash of which
    exactly one fails to close, [closeHedgePositions] makes one close call
    per position, returns [false] and leaves the store as it was: no stored
    record changes state, the successfully closed ones included. In
    general it returns [true] only if every position closed successfully. *)
Theorem closeHedgePositions_one_failure (env : Env) (txHash : string) (w : World) :
  let ps := foundPositions (redis w) txHash in
  let result := HedgeService.closeHedgePositions env txHash w in
  length ps = 3%nat ->
  Forall (fun p => status p = open) ps ->
  length (List.filter (fun p => negb (closeSucceeds env p)) ps) = 1%nat ->
  result.1 = Returned false /\
  redis result.2 = redis w /\
  foundPositions (redis result.2) txHash = ps /\
  calls result.2 = calls w ++ map closeCall ps /\
  (forall env' txHash' w',
     (HedgeService.closeHedgePositions env' txHash' w').1 = Returned true ->
     Forall (fun p => closeSucceeds env' p = true) (foundPositions (redis w') txHash')).
Proof.
  intros ps result _ _ Hone. subst result. rewrite closeHedgePositions_run. cbn [fst snd].
  fold ps. repeat split.
  - f_equal. destruct (forallb (closeSucceeds env) ps) eqn:E; [|reflexivity].
    rewrite forallb_forall in E.
    assert (Hnil : List.filter (fun p => negb (closeSucceeds env p)) ps = []).
    { clear Hone. induction ps as [|p qs IH]; [reflexivity|]. cbn.
      rewrite (E p) by now left. cbn. apply IH. intros x Hx. apply E. now right. }
    rewrite Hnil in Hone. discriminate Hone.
  - intros env' txHash' w'. rewrite closeHedgePositions_run. cbn [fst].
    intros [= Hall]. rewrite forallb_forall in Hall. apply Forall_forall.
    intros x Hx. apply Hall. now apply list_elem_of_In.
Qed.

Lemma closeHedgePositions_one_failure_witness :
  (HedgeService.closeHedgePositions Scenario.bybitRejects Scenario.tx Scenario.threeOpen).1
    = Returned false /\
  redis (HedgeService.closeHedgePositions Scenario.bybitRejects Scenario.tx
           Scenario.threeOpen).2
    = redis Scenario.threeOpen.
Proof.
  pose proof (closeHedgePositions_one_failure Scenario.bybitRejects Scenario.tx
                Scenario.threeOpen) as H.
  cbv zeta in H.
  destruct H as (H1 & H2 & _).
  - vm_compute. reflexivity.
  - vm_compute. repeat constructor.
  - vm_compute. reflexivity.
  - split; assumption.
Defined.

Lemma replay_snoc (envs : list Env) (env : Env) (user : string) (amount krwwMinted : Z)
    (event : DepositMonitor.EventLog) (w : World) :
  replay (envs ++ [env]) user amount krwwMinted event w
  = (DepositMonitor.handleDepositEvent env user amount krwwMinted event
       (replay envs user amount krwwMinted event w)).2.
Proof.
  revert w. induction envs as [|e envs IH]; intros w; [reflexivity|].
  cbn. now rewrite IH.
Qed.

(** What earlier deliveries of an event leave behind on a reachable store:
    the store stays reachable, the only deposit document they can have
    touched is the event's, and the entries of other members of the index
    are as before. *)
Lemma replay_frame (envs : list Env) (user : string) (amount krwwMinted : Z)
    (event : DepositMonitor.EventLog) (w : World) :
  online (redis w) = true ->
  let w' := replay envs user amount krwwMinted event w in
  let tx := DepositMonitor.e_transactionHash event in
  online (redis w') = true /\
  (forall d, <["deposit:" +:+ tx := d]> (depositDocs (redis w'))
             = <["deposit:" +:+ tx := d]> (depositDocs (redis w))) /\
  RedisClient.zremove tx (RedisClient.entries (redis w') "deposits:timestamp")
    = RedisClient.zremove tx (RedisClient.entries (redis w) "deposits:timestamp") /\
  calls w' = calls w.
Proof.
  intros Hon. induction envs as [|env envs IH] using rev_ind.
  - cbn. auto.
  - cbv zeta in *. rewrite replay_snoc.
    destruct IH as (Hon' & Hdocs & Hidx & Hcalls).
    destruct (handleDepositEvent_online env user amount krwwMinted event _ Hon')
      as (H1 & H2 & H3 & _ & H5).
    repeat split.
    + exact H1.
    + intros d. rewrite H2, insert_insert_eq. apply Hdocs.
    + rewrite H3, zremove_zinsert, zremove_zremove. exact Hidx.
    + now rewrite H5.
Qed.

(** C10. Idempotent deposit ingestion: delivering the same chain event to
    the handler any number of times (at least once, on a reachable store)
    leaves exactly one deposit document for its transaction hash, the map
    of documents being the initial one with that single key set, and exactly
    one entry for the hash in the time-ordered index, the entries of all
    other hashes being untouched. *)
Theorem deposit_replay_idempotent (envs : list Env) (env : Env) (user : string)
    (amount krwwMinted : Z) (event : DepositMonitor.EventLog) (w : World) :
  online (redis w) = true ->
  let w' := replay (envs ++ [env]) user amount krwwMinted event w in
  let tx := DepositMonitor.e_transactionHash event in
  depositDocs (redis w')
    = <["deposit:" +:+ tx := depositEventOf env user amount krwwMinted event]>
        (depositDocs (redis w)) /\
  occurrences tx (RedisClient.entries (redis w') "deposits:timestamp") = 1%nat /\
  RedisClient.zremove tx (RedisClient.entries (redis w') "deposits:timestamp")
    = RedisClient.zremove tx (RedisClient.entries (redis w) "deposits:timestamp").
Proof.
  intros Hon. cbv zeta. rewrite replay_snoc.
  destruct (replay_frame envs user amount krwwMinted event w Hon)
    as (Hon' & Hdocs & Hidx & _).
  destruct (handleDepositEvent_online env user amount krwwMinted event _ Hon')
    as (_ & H2 & H3 & _).
  repeat split.
  - rewrite H2. apply Hdocs.
  - now rewrite H3, occurrences_zinsert, occurrences_zremove.
  - now rewrite H3, zremove_zinsert, zremove_zremove.
Qed.

Lemma deposit_replay_idempotent_witness :
  let w' := replay [Scenario.allFill; Scenario.later; Scenario.later] "0xdepositor"
              1000000000000000000 2700000000000000000000000 Scenario.depositLog
              Scenario.world0 in
  size (depositDocs (redis w')) = 1%nat /\
  occurrences Scenario.tx (RedisClient.entries (redis w') "deposits:timestamp") = 1%nat.
Proof.
  pose proof (deposit_replay_idempotent [Scenario.allFill; Scenario.later] Scenario.later
                "0xdepositor" 1000000000000000000 2700000000000000000000000
                Scenario.depositLog Scenario.world0 eq_refl) as (H1 & H2 & _).
  split.
  - cbn [app] in H1. rewrite H1. reflexivity.
  - exact H2.
Defined.

(** With the symbol listed and the ticker answering, the Binance adapter
    places the SELL order for the quantity sized from the symbol's
    LOT_SIZE filter (0.001 for both values when the filter is missing). *)
Lemma binance_createShortPosition_sells (env : Env) (symbol : string)
    (exchangeInfo : list SymbolInfo) (symbolInfo : SymbolInfo)
    (currentPrice ethAmount : JS.number) :
  binance_exchangeInfo env = Returned exchangeInfo ->
  find (fun s => String.eqb (si_symbol s) symbol) exchangeInfo = Some symbolInfo ->
  binance_prices env OrderTicker symbol = Returned currentPrice ->
  binanceSells env symbol ethAmount
    (BinanceService.quantity
       (match lotSize symbolInfo with Some l => stepSize l | None => 0.001%float end)
       (match lotSize symbolInfo with Some l => minQty l | None => 0.001%float end)
       ethAmount).
Proof.
  intros Hinfo Hfind Hprice.
  unfold binanceSells, BinanceService.createShortPosition.
  rewrite Hinfo. cbn [mbind Outcome_bind]. rewrite Hfind, Hprice. cbn [mbind Outcome_bind].
  destruct (binance_order env symbol SELL _) as [order|error]; cbn.
  - eexists. split; [reflexivity|]. split; reflexivity.
  - reflexivity.
Qed.

(** With the ticker and the instrument's lot size filter read, the Bybit
    adapter places the Sell order for the size computed from the filter. *)
Lemma bybit_createShortPosition_sells (env : Env) (symbol : string)
    (currentPrice ethAmount : JS.number) (instrumentInfo : BybitLotSizeFilter) :
  BybitService.getTicker env symbol = Returned currentPrice ->
  BybitService.getInstrumentInfo env symbol = Returned instrumentInfo ->
  bybitSells env symbol ethAmount
    (BybitService.positionSize (qtyStep instrumentInfo) (minOrderQty instrumentInfo)
       ethAmount).
Proof.
  intros Hticker Hinfo.
  unfold bybitSells, BybitService.createShortPosition.
  rewrite Hticker. cbn [mbind Outcome_bind]. rewrite Hinfo. cbn [mbind Outcome_bind].
  destruct (bybit_orderCreate env _) as [orderResult|]; cbn; [|reflexivity].
  destruct (retCode orderResult =? 0); cbn; [|reflexivity].
  destruct (BybitService.getOrderStatus env symbol (r_orderId orderResult))
    as [orderStatus|]; cbn; [|reflexivity].
  eexists. split; [reflexivity|]. split; [reflexivity|]. split; [reflexivity|].
  cbn. now destruct (String.eqb (os_orderStatus orderStatus) "Filled").
Qed.

(** C9. Order sizing of the Binance and Bybit adapters: for an instrument
    whose increment is 0.001 and whose minimum order size is 0.01 (the
    symbol's LOT_SIZE filter on Binance, the instrument's lot size filter
    on Bybit), a request of 0.0456 is rounded down to 0.045, which is at
    least the minimum, and both adapters place their sell order for 0.045;
    a request whose rounded-down value is zero is raised to the minimum,
    and both adapters place their sell order for 0.01. What each adapter
    returns is the venue's answer to the order for exactly that size. *)
Theorem order_size_rounding (env : Env) (symbol : string)
    (exchangeInfo : list SymbolInfo) (symbolInfo : SymbolInfo)
    (ticker lastPrice ethAmount : JS.number) :
  binance_exchangeInfo env = Returned exchangeInfo ->
  find (fun s => String.eqb (si_symbol s) symbol) exchangeInfo = Some symbolInfo ->
  lotSize symbolInfo = Some {| minQty := 0.01%float; stepSize := 0.001%float |} ->
  binance_prices env OrderTicker symbol = Returned ticker ->
  BybitService.getTicker env symbol = Returned lastPrice ->
  BybitService.getInstrumentInfo env symbol
    = Returned {| qtyStep := 0.001%float; minOrderQty := 0.01%float |} ->
  (BinanceService.roundedDown 0.001 ethAmount = 0 \/
   BinanceService.roundedDown 0.001 ethAmount = -0)%float ->
  (BinanceService.roundedDown 0.001 0.0456 = 0.045)%float /\
  (PrimFloat.leb 0.01 (BinanceService.roundedDown 0.001 0.0456))%float = true /\
  (BinanceService.quantity 0.001 0.01 0.0456 = 0.045)%float /\
  (BybitService.positionSize 0.001 0.01 0.0456 = 0.045)%float /\
  (BinanceService.quantity 0.001 0.01 ethAmount = 0.01)%float /\
  (BybitService.positionSize 0.001 0.01 ethAmount = 0.01)%float /\
  binanceSells env symbol 0.0456%float 0.045%float /\
  bybitSells env symbol 0.0456%float 0.045%float /\
  binanceSells env symbol ethAmount 0.01%float /\
  bybitSells env symbol ethAmount 0.01%float.
Proof.
  intros Hinfo Hfind Hlot Hprice Hticker Hinstrument Hzero.
  assert (Hmin : (BinanceService.quantity 0.001 0.01 ethAmount = 0.01)%float).
  { unfold BinanceService.quantity. now destruct Hzero as [-> | ->]. }
  assert (Hdown : (BinanceService.quantity 0.001 0.01 0.0456 = 0.045)%float)
    by (vm_compute; reflexivity).
  do 2 (split; [vm_compute; reflexivity|]).
  split; [exact Hdown|]. split; [exact Hdown|].
  split; [exact Hmin|]. split; [exact Hmin|].
  pose proof (binance_createShortPosition_sells env symbol exchangeInfo symbolInfo ticker)
    as Hbinance.
  rewrite Hlot in Hbinance. cbn [stepSize minQty] in Hbinance.
  pose proof (bybit_createShortPosition_sells env symbol lastPrice) as Hbybit.
  specialize (fun a => Hbybit a _ Hticker Hinstrument). cbn [qtyStep minOrderQty] in Hbybit.
  change (BybitService.positionSize ?s ?m ?a) with (BinanceService.quantity s m a) in Hbybit.
  split; [|split; [|split]].
  - rewrite <- Hdown. now apply Hbinance.
  - rewrite <- Hdown. apply Hbybit.
  - rewrite <- Hmin. now apply Hbinance.
  - rewrite <- Hmin. apply Hbybit.
Qed.

Lemma order_size_rounding_witness :
  binanceSells Scenario.allFill "ETHUSDT" 0.0456%float 0.045%float /\
  bybitSells Scenario.allFill "ETHUSDT" 0.0004%float 0.01%float.
Proof.
  pose proof (order_size_rounding Scenario.allFill "ETHUSDT" [Scenario.ethusdt]
                Scenario.ethusdt 2000%float 2001%float 0.0004%float) as H.
  destruct H as (_ & _ & _ & _ & _ & _ & H1 & _ & _ & H2).
  - reflexivity.
  - reflexivity.
  - reflexivity.
  - reflexivity.
  - reflexivity.
  - reflexivity.
  - left. vm_compute. reflexivity.
  - split; assumption.
Defined.

(** ** Where the code departs from the specification *)

(** C1. Partial-failure aggregation, evaluated where two venues fail. With
    Binance unreachable the Binance promise and the CME promise throw while
    Hyperliquid and Bybit fill: the log is written with [successCount = 2],
    but it holds two records and two records are stored, both [open]; a
    promise that rejects leaves no [failed] record. With Hyperliquid and
    Bybit unreachable instead, their adapters return [failed] records of
    zero price and the requested size rather than throw: four records are
    logged, two of them [failed], and [successCount] is 4. *)
Theorem two_rejections_leave_two_records :
  let w1 := (HedgeService.executeHedge Scenario.binanceDown Scenario.request0
               Scenario.world0).2 in
  let log := logDocs (redis w1) !! ("hedge_log:" +:+ Scenario.tx) in
  let log' := logDocs (redis (HedgeService.executeHedge Scenario.perpetualsDown
                                Scenario.request0 Scenario.world0).2)
                !! ("hedge_log:" +:+ Scenario.tx) in
  (map isReturned (hedgeOutcomes Scenario.binanceDown Scenario.request0)
     = [false; false; true; true] /\
   successCount <$> log = Some 2 /\
   (fun l => map type (positions l)) <$> log = Some [hyperliquid; bybit] /\
   (fun l => map status (positions l)) <$> log = Some [open; open] /\
   length (storedPositions (redis w1) Scenario.tx) = 2%nat /\
   Forall (fun p => status p = open) (storedPositions (redis w1) Scenario.tx)) /\
  (map isReturned (hedgeOutcomes Scenario.perpetualsDown Scenario.request0)
     = [true; true; true; true] /\
   (fun l => map status (positions l)) <$> log' = Some [open; open; failed; failed] /\
   (fun l => map price (positions l)) <$> log'
     = Some [2000; 0.00075; 0; 0]%float /\
   (fun l => map amount (positions l)) <$> log'
     = Some [100000; 1; 100000; 100000]%float /\
   successCount <$> log' = Some 4).
Proof.
  cbv zeta. split.
  - do 5 (split; [vm_compute; reflexivity|]). vm_compute. repeat constructor.
  - do 4 (split; [vm_compute; reflexivity|]). vm_compute. reflexivity.
Qed.

(** C2. The success count, evaluated where a venue fails: with Bybit
    rejecting the order the log has [successCount = 4] and three records
    that are not [failed]; with no venue reachable it has
    [successCount = 2] and no record that is not [failed]. In every log
    the count is the number of records, whatever their state. *)
Theorem successCount_counts_failed_records :
  let log env := logDocs (redis (HedgeService.executeHedge env Scenario.request0
                                   Scenario.world0).2)
                   !! ("hedge_log:" +:+ Scenario.tx) in
  (successCount <$> log Scenario.bybitRejects = Some 4 /\
   (fun l => notFailed (positions l)) <$> log Scenario.bybitRejects = Some 3 /\
   (fun l => map status (positions l)) <$> log Scenario.bybitRejects
     = Some [open; open; open; failed]) /\
  (successCount <$> log Scenario.allDown = Some 2 /\
   (fun l => notFailed (positions l)) <$> log Scenario.allDown = Some 0 /\
   (fun l => map status (positions l)) <$> log Scenario.allDown = Some [failed; failed]) /\
  (forall results,
     (HedgeService.aggregate results).1
     = Z.of_nat (length (HedgeService.aggregate results).2)).
Proof.
  cbv zeta. split; [|split].
  - do 2 (split; [vm_compute; reflexivity|]). vm_compute. reflexivity.
  - do 2 (split; [vm_compute; reflexivity|]). vm_compute. reflexivity.
  - exact aggregate_count.
Qed.

(** C5. The venues attempted, as logged: an execution settles four
    promises, one per venue adapter, and with every venue filling the log
    holds four positions; its [totalHedges] field is 2, as in every log
    [logHedgeExecution] builds. *)
Theorem totalHedges_is_two :
  let w1 := (HedgeService.executeHedge Scenario.allFill Scenario.request0
               Scenario.world0).2 in
  let log := logDocs (redis w1) !! ("hedge_log:" +:+ Scenario.tx) in
  length (hedgeOutcomes Scenario.allFill Scenario.request0) = 4%nat /\
  (fun l => map type (positions l)) <$> log = Some [binance; cme; hyperliquid; bybit] /\
  successCount <$> log = Some 4 /\
  totalHedges <$> log = Some 2 /\
  (forall env request ps n, totalHedges (executionLogOf env request ps n) = 2).
Proof.
  cbv zeta. do 4 (split; [vm_compute; reflexivity|]). reflexivity.
Qed.

(** C6. The contract count of the futures venue, evaluated at 1000 USD and
    the quoted price 0.00075 USD per KRW: the code divides the value by
    [contractSize / krwusdPrice] (about 166.7 million) and gets 0 contracts,
    so the adapter submits no order and returns its [failed] fallback
    record; dividing by [contractSize * krwusdPrice] (93.75 USD, the value
    of one contract at that price) gives 10. *)
Theorem cme_contract_count_at_1000_usd :
  (CMEService.numberOfContracts 1000 0.00075 = 0)%float /\
  (JS.floor (1000 / (CMEService.contractSize * 0.00075)) = 10)%float /\
  (CMEService.createKRWUSDShortPosition Scenario.allFill 1000
   = Returned (CMEService.fallbackPosition Scenario.allFill 1000))%float /\
  (forall usdValue krwusdPrice,
     CMEService.numberOfContracts usdValue krwusdPrice
     = JS.floor (usdValue / (125000 / krwusdPrice)))%float.
Proof.
  do 3 (split; [vm_compute; reflexivity|]). reflexivity.
Qed.

(** ** Further properties of the adapters *)

Ltac pick_state :=
  first [ left; reflexivity | right; left; reflexivity | right; right; reflexivity ].

(** X1. The Bybit, Hyperliquid and CME adapters never throw: whatever the
    venue answers, each returns a short position of its own venue that is
    either [open] or [pending], or else exactly its fallback record (state
    [failed], price 0, the requested amount). *)
Theorem adapters_report_failure_by_record
    (env : Env) (name : string) (ethAmount usdValue : JS.number) :
  (exists p, BybitService.createShortPosition env name ethAmount = Returned p /\
             type p = bybit /\ side p = short /\
             (status p = open \/ status p = pending \/
              p = BybitService.failedPosition env name ethAmount)) /\
  (exists p, HyperliquidService.createShortPosition env name ethAmount = Returned p /\
             type p = hyperliquid /\ side p = short /\
             (status p = open \/ status p = pending \/
              p = HyperliquidService.failedPosition env name ethAmount)) /\
  (exists p, CMEService.createKRWUSDShortPosition env usdValue = Returned p /\
             type p = cme /\ side p = short /\
             (status p = open \/ status p = pending \/
              p = CMEService.fallbackPosition env usdValue)).
Proof.
  split; [|split].
  - unfold BybitService.createShortPosition, BybitService.getTicker,
      BybitService.getInstrumentInfo, BybitService.getOrderStatus, BybitService.firstOf,
      catch, mbind, Outcome_bind, mret, Outcome_ret.
    case_outcomes; eexists; (split; [reflexivity|]); repeat split; pick_state.
  - unfold HyperliquidService.createShortPosition, HyperliquidService.getMarketData,
      catch, mbind, Outcome_bind, mret, Outcome_ret.
    case_outcomes; eexists; (split; [reflexivity|]); repeat split; pick_state.
  - unfold CMEService.createKRWUSDShortPosition, CMEService.getCurrentKRWUSDPrice,
      catch, mbind, Outcome_bind, mret, Outcome_ret.
    case_outcomes; eexists; (split; [reflexivity|]); repeat split; pick_state.
Qed.

(** X2. The Binance adapter reports failure by throwing: a position it
    returns is [open] or [pending], never [failed], and carries the
    requested symbol and the executed quantity of an order the venue
    accepted for the quantity sized from the LOT_SIZE filter of the
    symbol's entry in the exchange information (0.001 for step and minimum
    when the entry has no such filter); every failure is thrown as an error
    whose message starts with "Binance short position failed: ". *)
Theorem binance_createShortPosition_outcome
    (env : Env) (name : string) (ethAmount : JS.number) :
  match BinanceService.createShortPosition env name ethAmount with
  | Returned p =>
      type p = binance /\ symbol p = name /\ side p = short /\
      (status p = open \/ status p = pending) /\
      exists exchangeInfo symbolInfo order,
        binance_exchangeInfo env = Returned exchangeInfo /\
        find (fun s => String.eqb (si_symbol s) name) exchangeInfo = Some symbolInfo /\
        binance_order env name SELL
          (BinanceService.quantity
             (match lotSize symbolInfo with Some l => stepSize l | None => 0.001%float end)
             (match lotSize symbolInfo with Some l => minQty l | None => 0.001%float end)
             ethAmount)
          = Returned order /\
        amount p = executedQty order /\
        id p = "binance_" +:+ pretty (b_orderId order)
  | Thrown e => exists cause, e = "Binance short position failed: " +:+ cause
  end.
Proof.
  unfold BinanceService.createShortPosition, catch, mbind, Outcome_bind, mret, Outcome_ret.
  destruct (binance_exchangeInfo env) as [info|]; [|eauto].
  destruct (find _ info) as [symbolInfo|] eqn:Hfind; [|eauto].
  destruct (binance_prices env OrderTicker name); [|eauto].
  destruct (binance_order env name SELL _) as [order|] eqn:Horder; [|eauto].
  cbn. repeat split.
  - destruct (String.eqb (b_status order) "FILLED"); auto.
  - exists info, symbolInfo, order. split; [reflexivity|]. split; [exact Hfind|].
    split; [exact Horder|]. split; reflexivity.
Qed.

(** X3. No close call throws: for every position and every venue
    behaviour, the close dispatched by [closeHedgePositions] returns a
    boolean, never an error, and records exactly one adapter call. *)
Theorem closeOne_never_throws (env : Env) (p : HedgePosition) (w : World) :
  exists closed_ : bool,
    HedgeService.closeOne env p w = (Returned closed_, addCalls [closeCall p] w) /\
    closeSucceeds env p = closed_.
Proof.
  rewrite closeOne_run. unfold closeSucceeds, closeResult.
  destruct (type p).
  - unfold BinanceService.closePosition, catch, mbind, Outcome_bind, mret, Outcome_ret.
    case_outcomes; eexists; split; reflexivity.
  - unfold CMEService.closePosition, catch, mbind, Outcome_bind, mret, Outcome_ret.
    case_outcomes; eexists; split; reflexivity.
  - unfold HyperliquidService.closePosition, HyperliquidService.getMarketData,
      catch, mbind, Outcome_bind, mret, Outcome_ret.
    case_outcomes; eexists; split; reflexivity.
  - unfold BybitService.closePosition, BybitService.getOrderStatus, BybitService.firstOf,
      catch, mbind, Outcome_bind, mret, Outcome_ret.
    case_outcomes; eexists; split; reflexivity.
Qed.

(** X4. A close call that reports success was confirmed by the venue: when
    the close dispatched for a position returns [true], the venue accepted
    a buy order for the position's recorded symbol and for the amount JSON
    kept of the recorded one, and reported it filled (for Bybit and
    Hyperliquid, a reduce-only order). For Binance and Bybit that amount
    is a number: a document whose amount was written as [null] is never
    reported closed by them. *)
Theorem close_success_means_filled (env : Env) (p : HedgePosition) :
  closeSucceeds env p = true ->
  match type p with
  | binance =>
      exists quantity order,
        JSON.number (amount p) = Some quantity /\
        binance_order env (symbol p) BUY quantity = Returned order /\
        b_status order = "FILLED"
  | cme =>
      exists orderData,
        cme_postOrder env (CMEClose (replace "cme_" "" (id p)) BUY (JSON.number (amount p)))
          = Returned orderData /\
        c_status orderData = "FILLED"
  | hyperliquid =>
      exists currentPrice orderResult orderStatus others,
        HyperliquidService.getMarketData env (symbol p) = Returned currentPrice /\
        hl_exchange env {| coin := symbol p; is_buy := true; sz := JSON.number (amount p);
                           limit_px := (currentPrice * 1.005)%float;
                           reduce_only := true |} = Returned orderResult /\
        h_status orderResult = "ok" /\
        h_statuses orderResult = Some (orderStatus :: others) /\
        filled orderStatus = true
  | bybit =>
      exists quantity orderResult orderStatus,
        JSON.number (amount p) = Some quantity /\
        bybit_orderCreate env {| r_symbol := symbol p; r_side := BUY; r_qty := quantity;
                                 r_reduceOnly := true |} = Returned orderResult /\
        retCode orderResult = 0 /\
        BybitService.getOrderStatus env (symbol p) (r_orderId orderResult)
          = Returned orderStatus /\
        os_orderStatus orderStatus = "Filled"
  end.
Proof.
  unfold closeSucceeds, closeResult. destruct (type p).
  - unfold BinanceService.closePosition, toString, catch, mbind, Outcome_bind, mret, Outcome_ret.
    destruct (JSON.number (amount p)) as [quantity|]; [|discriminate].
    destruct (binance_order env (symbol p) BUY quantity) as [order|] eqn:Ho; [|discriminate].
    destruct (String.eqb (b_status order) "FILLED") eqn:E; [|discriminate].
    intros _. exists quantity, order. split; [reflexivity|].
    split; [exact Ho|]. now apply String.eqb_eq.
  - unfold CMEService.closePosition, catch, mbind, Outcome_bind, mret, Outcome_ret.
    destruct (cme_postOrder env _) as [orderData|]; [|discriminate].
    destruct (String.eqb (c_status orderData) "FILLED") eqn:E; [|discriminate].
    intros _. exists orderData. split; [reflexivity|]. now apply String.eqb_eq.
  - unfold HyperliquidService.closePosition, catch, mbind, Outcome_bind, mret, Outcome_ret.
    destruct (HyperliquidService.getMarketData env (symbol p)) as [px|]; [|discriminate].
    destruct (hl_exchange env _) as [orderResult|] eqn:Hx; [|discriminate].
    destruct (String.eqb (h_status orderResult) "ok") eqn:E; [|discriminate].
    destruct (h_statuses orderResult) as [[|orderStatus others]|] eqn:Hs;
      try discriminate.
    cbn. destruct (filled orderStatus) eqn:Hf; [|discriminate].
    intros _. exists px, orderResult, orderStatus, others.
    repeat split; auto. now apply String.eqb_eq.
  - unfold BybitService.closePosition, toString, catch, mbind, Outcome_bind, mret, Outcome_ret.
    destruct (JSON.number (amount p)) as [quantity|]; [|discriminate].
    destruct (bybit_orderCreate env _) as [orderResult|] eqn:Hc; [|discriminate].
    destruct (Z.eqb (retCode orderResult) 0) eqn:Hr; [|discriminate].
    destruct (BybitService.getOrderStatus env (symbol p) (r_orderId orderResult))
      as [orderStatus|] eqn:Hs; [|discriminate].
    destruct (String.eqb (os_orderStatus orderStatus) "Filled") eqn:E; [|discriminate].
    intros _. exists quantity, orderResult, orderStatus.
    split; [reflexivity|]. split; [exact Hc|]. split; [now apply Z.eqb_eq|].
    split; [exact Hs|now apply String.eqb_eq].
Qed.

Lemma close_success_means_filled_witness :
  exists order,
    binance_order Scenario.bybitRejects "ETHUSDT" BUY 1%float = Returned order /\
    b_status order = "FILLED".
Proof.
  destruct (close_success_means_filled Scenario.bybitRejects Scenario.openBinance)
    as (quantity & order & Hq & Ho & Hs).
  - reflexivity.
  - vm_compute in Hq. injection Hq as <-. exists order. split; assumption.
Defined.

(** ** Further properties of the orchestrator *)

(** X5. An execution never counts fewer than two successes: the fan-out
    settles four promises of which the Hyperliquid and the Bybit one always
    fulfil, so [successCount] lies between 2 and 4 and the line logged after
    the execution is always "Full hedge success"; the "All hedges failed"
    and "Partial hedge success" lines cannot be produced. *)
Theorem execution_always_reported_full (env : Env) (request : HedgeRequest) (w : World) :
  exists results,
    (HedgeService.hedgePromises env request w).1 = Returned results /\
    length results = 4%nat /\
    2 <= (HedgeService.aggregate results).1 <= 4 /\
    HedgeConsumer.outcomeLine (HedgeService.aggregate results).1 (depositTxHash request)
    = (LogInfo, "Full hedge success for deposit: " +:+ depositTxHash request).
Proof.
  exists (hedgeOutcomes env request). rewrite hedgePromises_run.
  split; [reflexivity|]. split; [reflexivity|].
  unfold hedgeOutcomes.
  destruct (hyperliquid_createShortPosition_returns env "ETH" (ethAmount request))
    as (p2 & -> & _).
  destruct (bybit_createShortPosition_returns env "ETHUSDT" (ethAmount request))
    as (p3 & -> & _).
  match goal with
  | |- context [[?r0; ?r1; Returned p2; Returned p3]] =>
      generalize r0, r1; intros o0 o1
  end.
  destruct o0, o1; cbn; (split; [lia|reflexivity]).
Qed.

Lemma forEach_store_offline (txHash : string) (ps : list HedgePosition) (w : World) :
  online (redis w) = false ->
  forEach (HedgeService.storeHedgePosition txHash) ps w = (Returned tt, w).
Proof.
  intros Hoff. induction ps as [|p ps IH]; [reflexivity|].
  cbn [forEach]. rewrite (bind_returned _ _ w w tt)
    by now apply storeHedgePosition_offline.
  exact IH.
Qed.

Lemma logHedgeExecution_offline (env : Env) (request : HedgeRequest)
    (ps : list HedgePosition) (n : Z) (w : World) :
  online (redis w) = false ->
  HedgeService.logHedgeExecution env request ps n w = (Returned tt, w).
Proof.
  intros Hoff. unfold HedgeService.logHedgeExecution, tryCatch. cbv zeta.
  unfold RedisClient.setExLog. now rewrite command_offline.
Qed.

Lemma executeHedge_offline (env : Env) (request : HedgeRequest) (w : World) :
  online (redis w) = false ->
  HedgeService.executeHedge env request w
  = (Returned tt, addCalls (hedgeCalls env request) w).
Proof.
  intros Hoff. unfold HedgeService.executeHedge, tryCatch.
  rewrite (bind_returned _ _ w w []) by now apply getHedgeByTxHash_offline.
  cbn [length Nat.ltb Nat.leb].
  rewrite (bind_returned _ _ w (addCalls (hedgeCalls env request) w)
             (hedgeOutcomes env request)) by apply hedgePromises_run.
  destruct (HedgeService.aggregate (hedgeOutcomes env request)) as [n ps].
  rewrite (bind_returned _ _ _ (addCalls (hedgeCalls env request) w) tt)
    by now apply forEach_store_offline.
  now rewrite logHedgeExecution_offline.
Qed.

(** X6. While the store cannot be reached the idempotency guard is void:
    every call of the execution routine invokes the venues (the Binance
    order and price request, the Hyperliquid and the Bybit order, and the
    CME order when the price request succeeds), records nothing and returns
    normally, so two calls for the same deposit place the orders twice. *)
Theorem executeHedge_unreachable_store
    (env1 env2 : Env) (request : HedgeRequest) (w : World) :
  online (redis w) = false ->
  HedgeService.executeHedge env1 request w
    = (Returned tt, addCalls (hedgeCalls env1 request) w) /\
  executeAll [(env1, request); (env2, request)] w
    = addCalls (hedgeCalls env1 request ++ hedgeCalls env2 request) w /\
  redis (executeAll [(env1, request); (env2, request)] w) = redis w /\
  HyperliquidCreateShort "ETH" (ethAmount request) ∈ hedgeCalls env1 request /\
  BybitCreateShort "ETHUSDT" (ethAmount request) ∈ hedgeCalls env1 request /\
  BinanceCreateShort "ETHUSDT" (ethAmount request) ∈ hedgeCalls env1 request.
Proof.
  intros Hoff. split; [now apply executeHedge_offline|].
  assert (Hall : executeAll [(env1, request); (env2, request)] w
                 = addCalls (hedgeCalls env1 request ++ hedgeCalls env2 request) w).
  { cbn [executeAll]. rewrite (executeHedge_offline env1 request w Hoff). cbn [snd].
    rewrite executeHedge_offline by exact Hoff. cbn [snd]. apply addCalls_addCalls. }
  split; [exact Hall|]. split; [now rewrite Hall|].
  unfold hedgeCalls. repeat split; set_solver.
Qed.

Lemma executeHedge_unreachable_store_witness :
  length (calls (executeAll [(Scenario.allFill, Scenario.request0);
                             (Scenario.later, Scenario.request0)]
                   (Scenario.unreachable Scenario.world0))) = 10%nat.
Proof.
  pose proof (executeHedge_unreachable_store Scenario.allFill Scenario.later
                Scenario.request0 (Scenario.unreachable Scenario.world0) eq_refl)
    as (_ & H & _).
  rewrite H. reflexivity.
Defined.

Lemma storeAll_frame (txHash : string) (ps : list HedgePosition) (r : Redis) :
  depositDocs (storeAll txHash ps r) = depositDocs r /\
  plain (storeAll txHash ps r) = plain r /\
  zsets (storeAll txHash ps r) = zsets r /\
  lists (storeAll txHash ps r) = lists r /\
  (forall k, k <> "hedge_index:" +:+ txHash ->
             sets (storeAll txHash ps r) !! k = sets r !! k) /\
  (forall k, (forall t, k <> "hedge:" +:+ txHash +:+ ":" +:+ typeName t) ->
             positionDocs (storeAll txHash ps r) !! k = positionDocs r !! k).
Proof.
  revert r. induction ps as [|p ps IH]; intros r; [now repeat split|].
  unfold storeAll in *. cbn [fold_left].
  destruct (IH (storeOne txHash p r)) as (H1 & H2 & H3 & H4 & H5 & H6).
  rewrite H1, H2, H3, H4. repeat split.
  - intros k Hk. rewrite H5 by exact Hk. cbn. now rewrite lookup_insert_ne.
  - intros k Hk. rewrite H6 by exact Hk. cbn. rewrite lookup_insert_ne; [reflexivity|].
    intros Heq. now apply (Hk (type p)).
Qed.

(** X7. What an execution can touch: [executeHedge] for a deposit leaves
    the deposit documents, the deposit index, the request queue, the plain
    keys and the monitor's block counter alone; it changes no log other
    than [hedge_log:<tx>], no set other than [hedge_index:<tx>] and no
    position document other than [hedge:<tx>:<venue>] for the four venues;
    and it only adds to the trace of venue calls. *)
Theorem executeHedge_frame (env : Env) (request : HedgeRequest) (w : World) :
  let w' := (HedgeService.executeHedge env request w).2 in
  let tx := depositTxHash request in
  online (redis w') = online (redis w) /\
  depositDocs (redis w') = depositDocs (redis w) /\
  plain (redis w') = plain (redis w) /\
  zsets (redis w') = zsets (redis w) /\
  lists (redis w') = lists (redis w) /\
  lastProcessedBlock w' = lastProcessedBlock w /\
  (forall k, k <> "hedge_log:" +:+ tx -> logDocs (redis w') !! k = logDocs (redis w) !! k) /\
  (forall k, k <> "hedge_index:" +:+ tx -> sets (redis w') !! k = sets (redis w) !! k) /\
  (forall k, (forall t, k <> "hedge:" +:+ tx +:+ ":" +:+ typeName t) ->
             positionDocs (redis w') !! k = positionDocs (redis w) !! k) /\
  (exists cs, calls w' = calls w ++ cs).
Proof.
  cbv zeta. destruct (online (redis w)) eqn:Hon.
  - destruct (storedPositions (redis w) (depositTxHash request)) as [|p ps] eqn:Hst.
    + rewrite executeHedge_fresh by assumption. cbn [snd redis calls lastProcessedBlock].
      set (ps := (HedgeService.aggregate (hedgeOutcomes env request)).2).
      destruct (storeAll_frame (depositTxHash request) ps (redis w))
        as (H1 & H2 & H3 & H4 & H5 & H6).
      cbn. rewrite storeAll_online, storeAll_logDocs. repeat split; auto.
      * intros k Hk. now rewrite lookup_insert_ne.
      * eauto.
    + rewrite executeHedge_guard; [|exact Hon|now rewrite Hst].
      cbn [snd]. repeat split; auto. exists []. now rewrite app_nil_r.
  - rewrite executeHedge_offline by exact Hon. cbn. repeat split; auto. eauto.
Qed.

(** ** Round trip of an execution through the store *)

Lemma typeName_inj (t1 t2 : PositionType) : typeName t1 = typeName t2 -> t1 = t2.
Proof. destruct t1, t2; cbn; congruence. Qed.

Lemma append_inj_l (a b c : string) : a +:+ b = a +:+ c -> b = c.
Proof. induction a as [|x a IH]; cbn; [auto|]. intros [= H]. auto. Qed.

Lemma positionKey_inj (txHash : string) (t1 t2 : PositionType) :
  "hedge:" +:+ txHash +:+ ":" +:+ typeName t1 = "hedge:" +:+ txHash +:+ ":" +:+ typeName t2 ->
  t1 = t2.
Proof.
  intros H. apply typeName_inj.
  apply (append_inj_l ":"), (append_inj_l txHash), (append_inj_l "hedge:"). exact H.
Qed.

Lemma storeOne_members (txHash : string) (p : HedgePosition) (r : Redis) :
  RedisClient.members (storeOne txHash p r) ("hedge_index:" +:+ txHash)
  = {[id p]} ∪ RedisClient.members r ("hedge_index:" +:+ txHash).
Proof.
  unfold RedisClient.members, storeOne. cbn. now rewrite lookup_insert_eq.
Qed.

Lemma storeAll_members (txHash : string) (ps : list HedgePosition) (r : Redis) :
  RedisClient.members (storeAll txHash ps r) ("hedge_index:" +:+ txHash)
  = list_to_set (map id ps) ∪ RedisClient.members r ("hedge_index:" +:+ txHash).
Proof.
  revert r. induction ps as [|p ps IH]; intros r.
  - cbn. set_solver.
  - unfold storeAll in *. cbn [fold_left map list_to_set]. rewrite IH.
    rewrite storeOne_members. set_solver.
Qed.

Lemma storeAll_lookup (txHash : string) (ps : list HedgePosition) (r : Redis) (p : HedgePosition) :
  NoDup (map type ps) -> p ∈ ps ->
  positionDocs (storeAll txHash ps r) !! ("hedge:" +:+ txHash +:+ ":" +:+ typeName (type p))
  = Some p.
Proof.
  induction ps as [|q ps IH] using rev_ind; intros Hnd Hin.
  - now apply elem_of_nil in Hin.
  - rewrite storeAll_snoc. cbn.
    rewrite map_app in Hnd. apply NoDup_app in Hnd as (Hnd & Hfresh & _).
    apply elem_of_app in Hin as [Hin | Hin].
    + rewrite lookup_insert_ne; [now apply IH|].
      intros Heq. apply positionKey_inj in Heq.
      apply (Hfresh (type p)); [|cbn; rewrite Heq; set_solver].
      apply list_elem_of_fmap. eauto.
    + apply list_elem_of_singleton in Hin as ->. apply lookup_insert_eq.
Qed.

Lemma cme_hedge_type (env : Env) (request : HedgeRequest) (p : HedgePosition) :
  (ethPrice ← BinanceService.getCurrentPrice env "ETHUSDT";
   CMEService.createKRWUSDShortPosition env (ethAmount request * ethPrice)%float)
  = Returned p -> type p = cme.
Proof.
  destruct (BinanceService.getCurrentPrice env "ETHUSDT") as [x|]; [|discriminate].
  cbn. destruct (cme_createKRWUSDShortPosition_returns env (ethAmount request * x)%float)
    as (q & Hq & Ht & _). congruence.
Qed.

(** The records of one execution belong to different venues. *)
Lemma hedgeOutcomes_types (env : Env) (request : HedgeRequest) :
  NoDup (map type (HedgeService.aggregate (hedgeOutcomes env request)).2).
Proof.
  unfold hedgeOutcomes.
  destruct (hyperliquid_createShortPosition_returns env "ETH" (ethAmount request))
    as (p2 & -> & T2 & _).
  destruct (bybit_createShortPosition_returns env "ETHUSDT" (ethAmount request))
    as (p3 & -> & T3 & _).
  pose proof (binance_createShortPosition_wellFormed env "ETHUSDT" (ethAmount request)) as H0.
  pose proof (cme_hedge_type env request) as H1.
  destruct (BinanceService.createShortPosition env "ETHUSDT" (ethAmount request)) as [p0|];
    destruct (mbind _ _) as [p1|]; cbn.
  all: try (destruct (H0 p0 eq_refl) as [T0 _]; rewrite T0).
  all: try (rewrite (H1 p1 eq_refl)).
  all: rewrite T2, T3; repeat (apply NoDup_cons; split; [set_solver|]); apply NoDup_nil_2.
Qed.

Lemma hedgeOutcomes_all_wellFormed (env : Env) (request : HedgeRequest) :
  Forall wellFormed (HedgeService.aggregate (hedgeOutcomes env request)).2.
Proof.
  assert (H : forall results,
             (forall p, Returned p ∈ results -> wellFormed p) ->
             Forall wellFormed (HedgeService.aggregate results).2).
  { induction results as [|x results IH] using rev_ind; intros Hwf; [constructor|].
    destruct x as [v|e].
    - rewrite aggregate_snoc. cbn [snd]. apply Forall_app. split.
      + apply IH. intros p Hp. apply Hwf. set_solver.
      + constructor; [|constructor]. apply Hwf. set_solver.
    - unfold HedgeService.aggregate in *. rewrite fold_left_app. cbn.
      apply IH. intros p Hp. apply Hwf. set_solver. }
  apply H. apply hedgeOutcomes_wellFormed.
Qed.

Lemma wellFormed_ids (ps : list HedgePosition) :
  Forall wellFormed ps -> NoDup (map type ps) -> NoDup (map id ps).
Proof.
  induction ps as [|p ps IH]; intros Hwf Hnd; [constructor|].
  cbn in *. apply NoDup_cons in Hnd as [Hp Hnd]. apply Forall_cons in Hwf as [Hwp Hwf].
  apply NoDup_cons. split; [|now apply IH].
  intros Hin. apply Hp. apply list_elem_of_fmap in Hin as (q & Hid & Hq).
  apply list_elem_of_fmap. exists q. split; [|exact Hq].
  apply typeName_inj. rewrite Forall_forall in Hwf.
  rewrite <- Hwp, <- (Hwf q Hq). now rewrite Hid.
Qed.

(** On a store whose index for the hash was empty, the lookup after
    storing well-formed records of different venues finds exactly them. *)
Lemma storedPositions_storeAll (txHash : string) (ps : list HedgePosition) (r : Redis) :
  RedisClient.members r ("hedge_index:" +:+ txHash) = ∅ ->
  Forall wellFormed ps -> NoDup (map type ps) ->
  storedPositions (storeAll txHash ps r) txHash ≡ₚ ps.
Proof.
  intros Hempty Hwf Hnd. unfold storedPositions.
  rewrite storeAll_members, Hempty, (right_id_L ∅ (∪)).
  rewrite elements_list_to_set by now apply wellFormed_ids.
  assert (H : forall qs, (forall q, q ∈ qs -> q ∈ ps) ->
            omap (fun positionId =>
                    positionDocs (storeAll txHash ps r)
                      !! ("hedge:" +:+ txHash +:+ ":" +:+ splitHead "_" positionId))
                 (map id qs) = qs).
  { induction qs as [|q qs IH]; intros Hsub; [reflexivity|].
    cbn. rewrite Forall_forall in Hwf.
    rewrite (Hwf q) by (apply Hsub; set_solver).
    rewrite storeAll_lookup by (auto; apply Hsub; set_solver).
    cbn. f_equal. apply IH. intros x Hx. apply Hsub. set_solver. }
  now rewrite H.
Qed.

Lemma forallb_Permutation {A} (f : A -> bool) (l1 l2 : list A) :
  l1 ≡ₚ l2 -> forallb f l1 = forallb f l2.
Proof.
  induction 1 as [|x l1 l2 _ IH|x y l|l1 l2 l3 _ IH1 _ IH2]; cbn.
  - reflexivity.
  - now rewrite IH.
  - now rewrite !andb_assoc, (andb_comm (f y)).
  - now rewrite IH1.
Qed.

(** The state an execution leaves on a reachable store whose index for
    the hash was empty. *)
Lemma execution_round_trip_lemma (env : Env) (request : HedgeRequest) (w : World) :
  online (redis w) = true ->
  RedisClient.members (redis w) ("hedge_index:" +:+ depositTxHash request) = ∅ ->
  let w1 := (HedgeService.executeHedge env request w).2 in
  exists log,
    logDocs (redis w1) !! ("hedge_log:" +:+ depositTxHash request) = Some log /\
    online (redis w1) = true /\
    storedPositions (redis w1) (depositTxHash request) ≡ₚ positions log.
Proof.
  intros Hon Hempty w1.
  assert (Hfresh : storedPositions (redis w) (depositTxHash request) = []).
  { unfold storedPositions. now rewrite Hempty, elements_empty. }
  assert (Hw1 : w1 = (HedgeService.executeHedge env request w).2) by reflexivity.
  rewrite executeHedge_fresh in Hw1 by assumption. cbn [snd] in Hw1.
  set (ps := (HedgeService.aggregate (hedgeOutcomes env request)).2) in *.
  set (n := (HedgeService.aggregate (hedgeOutcomes env request)).1) in *.
  exists (executionLogOf env request ps n). rewrite Hw1. cbn [redis].
  split; [cbn; apply lookup_insert_eq|].
  split; [cbn; now rewrite storeAll_online|].
  change (storedPositions (RedisClient.withLogDocs ?f ?r) ?t) with (storedPositions r t).
  apply storedPositions_storeAll;
    [exact Hempty|apply hedgeOutcomes_all_wellFormed|apply hedgeOutcomes_types].
Qed.

(** X8. Round trip of an execution: on a reachable store whose index for
    the deposit's hash is empty, after [executeHedge] the log read back by
    [getHedgeLog] is the one of this request, the positions read back by
    [getHedgeByTxHash] are exactly the positions of that log (in the
    store's order), the log's [successCount] is their number, and the
    hedges endpoint answers 200 with both. *)
Theorem execution_round_trip (env : Env) (request : HedgeRequest) (w : World) :
  online (redis w) = true ->
  RedisClient.members (redis w) ("hedge_index:" +:+ depositTxHash request) = ∅ ->
  let w1 := (HedgeService.executeHedge env request w).2 in
  exists log found,
    HedgeService.getHedgeLog (depositTxHash request) w1 = (Returned (Some log), w1) /\
    HedgeService.getHedgeByTxHash (depositTxHash request) w1 = (Returned found, w1) /\
    found ≡ₚ positions log /\
    successCount log = Z.of_nat (length found) /\
    txHash log = depositTxHash request /\
    log_ethAmount log = ethAmount request /\
    hedgesRoute (depositTxHash request) w1
      = ({| hedges_status := 200; hedges_positions := found; hedges_log := Some log |}, w1).
Proof.
  intros Hon Hempty w1.
  assert (Hfresh : storedPositions (redis w) (depositTxHash request) = []).
  { unfold storedPositions. now rewrite Hempty, elements_empty. }
  assert (Hw1 : w1 = (HedgeService.executeHedge env request w).2) by reflexivity.
  rewrite executeHedge_fresh in Hw1 by assumption. cbn [snd] in Hw1.
  set (ps := (HedgeService.aggregate (hedgeOutcomes env request)).2) in *.
  set (n := (HedgeService.aggregate (hedgeOutcomes env request)).1) in *.
  assert (Hon1 : online (redis w1) = true).
  { rewrite Hw1. cbn. now rewrite storeAll_online. }
  assert (Hlog : HedgeService.getHedgeLog (depositTxHash request) w1
                 = (Returned (Some (executionLogOf env request ps n)), w1)).
  { unfold HedgeService.getHedgeLog, RedisClient.getLog, tryCatch.
    rewrite command_online by exact Hon1. cbn [fst snd]. rewrite setRedis_id.
    rewrite Hw1 at 1. cbn. now rewrite lookup_insert_eq. }
  assert (Hfound : storedPositions (redis w1) (depositTxHash request) ≡ₚ ps).
  { rewrite Hw1. cbn [redis].
    change (storedPositions (RedisClient.withLogDocs ?f ?r) ?t) with (storedPositions r t).
    apply storedPositions_storeAll;
      [exact Hempty|apply hedgeOutcomes_all_wellFormed|apply hedgeOutcomes_types]. }
  exists (executionLogOf env request ps n),
         (storedPositions (redis w1) (depositTxHash request)).
  split; [exact Hlog|].
  split; [now apply getHedgeByTxHash_online|].
  split; [exact Hfound|].
  split; [cbn; rewrite Hfound; apply aggregate_count|].
  split; [reflexivity|]. split; [reflexivity|].
  unfold hedgesRoute.
  rewrite (bind_returned _ _ w1 w1 (storedPositions (redis w1) (depositTxHash request)))
    by now apply getHedgeByTxHash_online.
  now rewrite (bind_returned _ _ w1 w1 (Some (executionLogOf env request ps n))).
Qed.

Lemma execution_round_trip_witness :
  let w1 := (HedgeService.executeHedge Scenario.bybitRejects Scenario.request0
               Scenario.world0).2 in
  exists log found,
    HedgeService.getHedgeLog Scenario.tx w1 = (Returned (Some log), w1) /\
    HedgeService.getHedgeByTxHash Scenario.tx w1 = (Returned found, w1) /\
    found ≡ₚ positions log.
Proof.
  destruct (execution_round_trip Scenario.bybitRejects Scenario.request0 Scenario.world0)
    as (log & found & H1 & H2 & H3 & _).
  - reflexivity.
  - reflexivity.
  - exists log, found. auto.
Defined.

(** A Binance or Bybit record whose amount JSON wrote as [null] cannot be
    closed: [toString] throws before any order is sent. *)
Lemma closeSucceeds_null (env : Env) (p : HedgePosition) :
  type p = binance \/ type p = bybit ->
  JSON.number (amount p) = None ->
  closeSucceeds env p = false.
Proof.
  unfold closeSucceeds, closeResult. intros [-> | ->] ->; reflexivity.
Qed.

(** X9. The close-out has no state filter: on a reachable store whose
    index for the hash was empty before the execution, a close-out after
    [executeHedge] makes one close call for every position of the
    execution log, the [failed] fallback records included, with the amount
    JSON kept of the recorded one; it writes nothing and returns whether
    all of those calls succeeded. A Binance or Bybit record whose amount
    was not a finite number (the venue's answer did not parse) is read
    back with a [null] amount and makes the close-out return [false]. *)
Theorem close_after_execution_calls_every_record
    (env env' : Env) (request : HedgeRequest) (w : World) :
  online (redis w) = true ->
  RedisClient.members (redis w) ("hedge_index:" +:+ depositTxHash request) = ∅ ->
  let w1 := (HedgeService.executeHedge env request w).2 in
  let result := HedgeService.closeHedgePositions env' (depositTxHash request) w1 in
  exists log cs,
    logDocs (redis w1) !! ("hedge_log:" +:+ depositTxHash request) = Some log /\
    calls result.2 = calls w1 ++ cs /\
    cs ≡ₚ map closeCall (positions log) /\
    (forall p, p ∈ positions log -> status p = failed -> closeCall p ∈ cs) /\
    result.1 = Returned (forallb (closeSucceeds env') (positions log)) /\
    (forall p, p ∈ positions log -> type p = binance \/ type p = bybit ->
               JSON.number (amount p) = None -> result.1 = Returned false) /\
    redis result.2 = redis w1.
Proof.
  intros Hon Hempty w1 result.
  destruct (execution_round_trip_lemma env request w Hon Hempty)
    as (log & Hlog & Hon1 & Hfound).
  fold w1 in Hlog, Hon1, Hfound.
  exists log, (map closeCall (foundPositions (redis w1) (depositTxHash request))).
  assert (Hf : foundPositions (redis w1) (depositTxHash request) ≡ₚ positions log).
  { unfold foundPositions. now rewrite Hon1. }
  subst result. rewrite closeHedgePositions_run. cbn [fst snd].
  split; [exact Hlog|]. split; [reflexivity|].
  split; [now rewrite Hf|].
  split.
  - intros p Hp _. apply list_elem_of_fmap. exists p. split; [reflexivity|].
    now rewrite Hf.
  - split; [f_equal; now apply forallb_Permutation|]. split; [|reflexivity].
    intros p Hp Htype Hnull. f_equal.
    destruct (forallb (closeSucceeds env')
                (foundPositions (redis w1) (depositTxHash request))) eqn:E; [|reflexivity].
    rewrite forallb_forall in E.
    rewrite <- (E p), (closeSucceeds_null env' p Htype Hnull); [reflexivity|].
    apply list_elem_of_In. now rewrite Hf.
Qed.

Lemma close_after_execution_calls_every_record_witness :
  let w1 := (HedgeService.executeHedge Scenario.allFill Scenario.request1
               Scenario.world0).2 in
  CMEClosePosition "fallback_1700000000000" (Some 2000%float)
    ∈ calls (HedgeService.closeHedgePositions Scenario.later Scenario.tx w1).2.
Proof.
  destruct (close_after_execution_calls_every_record Scenario.allFill Scenario.later
              Scenario.request1 Scenario.world0 eq_refl eq_refl)
    as (log & cs & Hlog & Hcalls & _ & Hfailed & _).
  cbv zeta. change Scenario.tx with (depositTxHash Scenario.request1).
  rewrite Hcalls. apply elem_of_app. right.
  apply (Hfailed (CMEService.fallbackPosition Scenario.allFill 2000%float)).
  - vm_compute in Hlog. injection Hlog as <-. cbn [positions].
    apply list_elem_of_In. right. left. reflexivity.
  - reflexivity.
Defined.

(** ** Further properties of the deposit monitor *)

Lemma handleDepositEvent_online_rest (env : Env) (user : string) (amount krwwMinted : Z)
    (event : DepositMonitor.EventLog) (w : World) :
  online (redis w) = true ->
  let w' := (DepositMonitor.handleDepositEvent env user amount krwwMinted event w).2 in
  let block := DepositMonitor.e_blockNumber event in
  (DepositMonitor.handleDepositEvent env user amount krwwMinted event w).1 = Returned tt /\
  lastProcessedBlock w' = Z.max (lastProcessedBlock w) block /\
  plain (redis w')
    = (if lastProcessedBlock w <? block
       then <["last_processed_block" := pretty block]> (plain (redis w))
       else plain (redis w)) /\
  positionDocs (redis w') = positionDocs (redis w) /\
  logDocs (redis w') = logDocs (redis w) /\
  sets (redis w') = sets (redis w).
Proof.
  intros Hon.
  unfold DepositMonitor.handleDepositEvent, DepositMonitor.storeDepositEvent,
    DepositMonitor.queueHedgeRequest, DepositMonitor.updateLastProcessedBlock,
    DepositMonitor.setLastProcessedBlock,
    RedisClient.setExDeposit, RedisClient.zAdd, RedisClient.lPush, RedisClient.set.
  unfold_monad. cbn. rewrite Hon. cbn. rewrite Hon. cbn. rewrite Hon. cbn.
  destruct (lastProcessedBlock w <? DepositMonitor.e_blockNumber event) eqn:E; cbn.
  - rewrite Hon. cbn. repeat split. apply Z.ltb_lt in E. lia.
  - repeat split. apply Z.ltb_ge in E. lia.
Qed.

Lemma handleDepositEvent_offline (env : Env) (user : string) (amount krwwMinted : Z)
    (event : DepositMonitor.EventLog) (w : World) :
  online (redis w) = false ->
  DepositMonitor.handleDepositEvent env user amount krwwMinted event w
  = (Returned tt,
     {| redis := redis w; calls := calls w;
        lastProcessedBlock :=
          Z.max (lastProcessedBlock w) (DepositMonitor.e_blockNumber event) |}).
Proof.
  intros Hoff.
  unfold DepositMonitor.handleDepositEvent, DepositMonitor.storeDepositEvent,
    DepositMonitor.queueHedgeRequest, DepositMonitor.updateLastProcessedBlock,
    DepositMonitor.setLastProcessedBlock,
    RedisClient.setExDeposit, RedisClient.zAdd, RedisClient.lPush, RedisClient.set.
  unfold_monad. cbn. rewrite Hoff. cbn. rewrite Hoff. cbn.
  destruct (lastProcessedBlock w <? DepositMonitor.e_blockNumber event) eqn:E; cbn.
  - rewrite Hoff. do 2 f_equal. apply Z.ltb_lt in E. lia.
  - destruct w. cbn in *. do 2 f_equal. apply Z.ltb_ge in E. lia.
Qed.

(** X10. A deposit delivered while the store cannot be reached is lost:
    the handler returns normally having stored no deposit and queued no
    hedge request, yet it moves the monitor's [lastProcessedBlock] to the
    event's block, so the range of the next reconciliation
    ([lastProcessedBlock + 1] onwards) no longer contains the event. *)
Theorem deposit_lost_when_store_unreachable (env : Env) (user : string)
    (amount krwwMinted : Z) (event : DepositMonitor.EventLog) (w : World) :
  online (redis w) = false ->
  let result := DepositMonitor.handleDepositEvent env user amount krwwMinted event w in
  result.1 = Returned tt /\
  redis result.2 = redis w /\
  calls result.2 = calls w /\
  lastProcessedBlock result.2
    = Z.max (lastProcessedBlock w) (DepositMonitor.e_blockNumber event) /\
  DepositMonitor.e_blockNumber event < lastProcessedBlock result.2 + 1.
Proof.
  intros Hoff. cbv zeta. rewrite handleDepositEvent_offline by exact Hoff.
  cbn. repeat split. lia.
Qed.

Lemma deposit_lost_when_store_unreachable_witness :
  let result := DepositMonitor.handleDepositEvent Scenario.allFill "0xdepositor"
                  1000000000000000000 2700000000000000000000000 Scenario.depositLog
                  (Scenario.unreachable Scenario.world0) in
  redis result.2 = redis (Scenario.unreachable Scenario.world0) /\
  lastProcessedBlock result.2 = 19000000.
Proof.
  destruct (deposit_lost_when_store_unreachable Scenario.allFill "0xdepositor"
              1000000000000000000 2700000000000000000000000 Scenario.depositLog
              (Scenario.unreachable Scenario.world0) eq_refl)
    as (_ & H1 & _ & H2 & _).
  split; [exact H1|exact H2].
Defined.

(** X11. The block counter and its persisted copy: on a reachable store
    the handler leaves [lastProcessedBlock] at the maximum of its old value
    and the event's block (it never decreases), and a store whose
    [last_processed_block] key holds the counter's decimal rendering before
    the event holds it afterwards too. *)
Theorem lastProcessedBlock_persisted (env : Env) (user : string)
    (amount krwwMinted : Z) (event : DepositMonitor.EventLog) (w : World) :
  online (redis w) = true ->
  plain (redis w) !! "last_processed_block" = Some (pretty (lastProcessedBlock w)) ->
  let w' := (DepositMonitor.handleDepositEvent env user amount krwwMinted event w).2 in
  lastProcessedBlock w'
    = Z.max (lastProcessedBlock w) (DepositMonitor.e_blockNumber event) /\
  lastProcessedBlock w <= lastProcessedBlock w' /\
  plain (redis w') !! "last_processed_block" = Some (pretty (lastProcessedBlock w')).
Proof.
  intros Hon Hsync.
  destruct (handleDepositEvent_online_rest env user amount krwwMinted event w Hon)
    as (_ & Hmax & Hplain & _).
  cbv zeta in *. rewrite Hmax, Hplain. split; [reflexivity|]. split; [lia|].
  destruct (lastProcessedBlock w <? DepositMonitor.e_blockNumber event) eqn:E.
  - apply Z.ltb_lt in E. rewrite lookup_insert_eq. do 2 f_equal. lia.
  - apply Z.ltb_ge in E. rewrite Hsync. do 2 f_equal. lia.
Qed.

Lemma lastProcessedBlock_persisted_witness :
  let w := (DepositMonitor.handleDepositEvent Scenario.allFill "0xdepositor"
              1000000000000000000 2700000000000000000000000 Scenario.depositLog
              Scenario.world0).2 in
  let w' := (DepositMonitor.handleDepositEvent Scenario.later "0xdepositor"
               1000000000000000000 2700000000000000000000000 Scenario.depositLog w).2 in
  plain (redis w') !! "last_processed_block" = Some "19000000".
Proof.
  cbv zeta.
  destruct (lastProcessedBlock_persisted Scenario.later "0xdepositor"
              1000000000000000000 2700000000000000000000000 Scenario.depositLog
              (DepositMonitor.handleDepositEvent Scenario.allFill "0xdepositor"
                 1000000000000000000 2700000000000000000000000 Scenario.depositLog
                 Scenario.world0).2)
    as (_ & _ & H).
  - reflexivity.
  - vm_compute. reflexivity.
  - rewrite H. vm_compute. reflexivity.
Defined.

(** X12. Round trip of a deposit: after the handler ran on a reachable
    store, [getDepositByTxHash] returns the deposit built from the event
    (depositor, formatted amounts, block, hash, detection time), the
    deposit endpoint answers 200 with it, and the newest entry of the
    request queue is the hedge request derived from it, for the same hash
    and depositor. *)
Theorem deposit_round_trip (env : Env) (user : string) (amount krwwMinted : Z)
    (event : DepositMonitor.EventLog) (w : World) :
  online (redis w) = true ->
  let w' := (DepositMonitor.handleDepositEvent env user amount krwwMinted event w).2 in
  let tx := DepositMonitor.e_transactionHash event in
  let deposit := depositEventOf env user amount krwwMinted event in
  DepositMonitor.getDepositByTxHash tx w' = (Returned (Some deposit), w') /\
  depositRoute tx w'
    = ({| deposit_status := 200; deposit_body := Some deposit; deposit_error := None |}, w') /\
  (exists request older,
     RedisClient.items (redis w') "hedge_requests" = request :: older /\
     older = RedisClient.items (redis w) "hedge_requests" /\
     depositTxHash request = tx /\
     userAddress request = user /\
     ethAmount request = parseFloat env (formatEther env amount)).
Proof.
  intros Hon.
  destruct (handleDepositEvent_online env user amount krwwMinted event w Hon)
    as (Hon' & Hdocs & _ & Hitems & _).
  cbv zeta in *.
  set (w' := (DepositMonitor.handleDepositEvent env user amount krwwMinted event w).2) in *.
  assert (Hget : DepositMonitor.getDepositByTxHash
                   (DepositMonitor.e_transactionHash event) w'
                 = (Returned (Some (depositEventOf env user amount krwwMinted event)), w')).
  { unfold DepositMonitor.getDepositByTxHash, RedisClient.getDeposit, tryCatch.
    rewrite command_online by exact Hon'. cbn [fst snd].
    now rewrite setRedis_id, Hdocs, lookup_insert_eq. }
  split; [exact Hget|]. split.
  - unfold depositRoute. now rewrite Hget.
  - eexists. eexists. split; [exact Hitems|]. repeat split.
Qed.

Lemma deposit_round_trip_witness :
  let w' := (DepositMonitor.handleDepositEvent Scenario.allFill "0xdepositor"
               1000000000000000000 2700000000000000000000000 Scenario.depositLog
               Scenario.world0).2 in
  (depositRoute Scenario.tx w').1
  = {| deposit_status := 200;
       deposit_body := Some (depositEventOf Scenario.allFill "0xdepositor"
                               1000000000000000000 2700000000000000000000000
                               Scenario.depositLog);
       deposit_error := None |}.
Proof.
  destruct (deposit_round_trip Scenario.allFill "0xdepositor"
              1000000000000000000 2700000000000000000000000 Scenario.depositLog
              Scenario.world0 eq_refl) as (_ & H & _).
  cbv zeta. change Scenario.tx with (DepositMonitor.e_transactionHash Scenario.depositLog).
  now rewrite H.
Defined.

(** X13. The read paths while the store cannot be reached: every accessor
    swallows the error, so the deposit endpoint answers 404 "Deposit not
    found" (not 500), the hedges endpoint answers 200 with no positions and
    no log, and the deposit history is empty; nothing is changed. *)
Theorem reads_on_unreachable_store (txHash : string) (limit : Z) (w : World) :
  online (redis w) = false ->
  depositRoute txHash w
    = ({| deposit_status := 404; deposit_body := None;
          deposit_error := Some "Deposit not found" |}, w) /\
  hedgesRoute txHash w
    = ({| hedges_status := 200; hedges_positions := []; hedges_log := None |}, w) /\
  DepositMonitor.getDepositHistory limit w = (Returned [], w) /\
  DepositMonitor.getDepositByTxHash txHash w = (Returned None, w) /\
  HedgeService.getHedgeLog txHash w = (Returned None, w).
Proof.
  intros Hoff.
  assert (Hd : DepositMonitor.getDepositByTxHash txHash w = (Returned None, w)).
  { unfold DepositMonitor.getDepositByTxHash, RedisClient.getDeposit, tryCatch.
    now rewrite command_offline. }
  assert (Hl : HedgeService.getHedgeLog txHash w = (Returned None, w)).
  { unfold HedgeService.getHedgeLog, RedisClient.getLog, tryCatch.
    now rewrite command_offline. }
  repeat split; auto.
  - unfold depositRoute. now rewrite Hd.
  - unfold hedgesRoute.
    rewrite (bind_returned _ _ w w []) by now apply getHedgeByTxHash_offline.
    now rewrite (bind_returned _ _ w w None).
  - unfold DepositMonitor.getDepositHistory, RedisClient.zRangeRev, tryCatch.
    erewrite bind_thrown; [reflexivity|].
    erewrite bind_thrown; [reflexivity|]. now apply command_offline.
Qed.

Lemma reads_on_unreachable_store_witness :
  (depositRoute Scenario.tx
     (Scenario.unreachable
        (DepositMonitor.handleDepositEvent Scenario.allFill "0xdepositor"
           1000000000000000000 2700000000000000000000000 Scenario.depositLog
           Scenario.world0).2)).1
  = {| deposit_status := 404; deposit_body := None;
       deposit_error := Some "Deposit not found" |}.
Proof.
  destruct (reads_on_unreachable_store Scenario.tx 100
              (Scenario.unreachable
                 (DepositMonitor.handleDepositEvent Scenario.allFill "0xdepositor"
                    1000000000000000000 2700000000000000000000000 Scenario.depositLog
                    Scenario.world0).2) eq_refl) as (H & _).
  now rewrite H.
Defined.

Section Index.
Context (e : Z * string).

Lemma zinsert_elem_of (l : list (Z * string)) (y : Z * string) :
  y ∈ RedisClient.zinsert e l <-> y = e \/ y ∈ l.
Proof.
  induction l as [|x l IH]; cbn.
  - set_solver.
  - destruct (RedisClient.entryLe e x); [set_solver|].
    rewrite !elem_of_cons, IH. tauto.
Qed.

Lemma zinsert_Permutation (l : list (Z * string)) :
  RedisClient.zinsert e l ≡ₚ e :: l.
Proof.
  induction l as [|x l IH]; cbn; [reflexivity|].
  destruct (RedisClient.entryLe e x); [reflexivity|].
  rewrite IH. apply perm_swap.
Qed.

Lemma zinsert_sorted (l : list (Z * string)) :
  StronglySorted (fun a b : Z * string => a.1 <= b.1) l ->
  StronglySorted (fun a b : Z * string => a.1 <= b.1) (RedisClient.zinsert e l).
Proof.
  induction 1 as [|x l Hs IH Hx]; cbn.
  - repeat constructor.
  - destruct (RedisClient.entryLe e x) eqn:E.
    + assert (Hex : e.1 <= x.1).
      { unfold RedisClient.entryLe in E. apply orb_true_iff in E as [E|E].
        - apply Z.ltb_lt in E. lia.
        - apply andb_true_iff in E as [E _]. apply Z.eqb_eq in E. lia. }
      constructor; [now constructor|]. constructor; [exact Hex|].
      eapply Forall_impl; [exact Hx|]. cbn. intros; lia.
    + assert (Hxe : x.1 <= e.1).
      { unfold RedisClient.entryLe in E. apply orb_false_iff in E as [E _].
        apply Z.ltb_ge in E. exact E. }
      constructor; [exact IH|]. apply Forall_forall. intros y Hy.
      apply zinsert_elem_of in Hy as [-> | Hy]; [exact Hxe|].
      rewrite Forall_forall in Hx. now apply Hx.
Qed.

End Index.

Lemma zremove_elem_of (member : string) (l : list (Z * string)) (y : Z * string) :
  y ∈ RedisClient.zremove member l <-> y ∈ l /\ y.2 <> member.
Proof.
  unfold RedisClient.zremove. rewrite !list_elem_of_In, filter_In.
  rewrite negb_true_iff, String.eqb_neq. reflexivity.
Qed.

Lemma zremove_sorted (member : string) (l : list (Z * string)) :
  StronglySorted (fun a b : Z * string => a.1 <= b.1) l ->
  StronglySorted (fun a b : Z * string => a.1 <= b.1) (RedisClient.zremove member l).
Proof.
  induction 1 as [|x l Hs IH Hx]; cbn; [constructor|].
  destruct (negb (String.eqb x.2 member)); [|exact IH].
  constructor; [exact IH|]. apply Forall_forall. intros y Hy.
  apply zremove_elem_of in Hy as [Hy _]. rewrite Forall_forall in Hx. now apply Hx.
Qed.

Lemma zremove_NoDup (member : string) (l : list (Z * string)) :
  NoDup (map snd l) ->
  NoDup (map snd (RedisClient.zremove member l)) /\
  member ∉ map snd (RedisClient.zremove member l).
Proof.
  intros Hnd. split.
  - induction l as [|x l IH]; cbn in *; [constructor|].
    apply NoDup_cons in Hnd as [Hx Hnd].
    destruct (negb (String.eqb x.2 member)); [|now apply IH].
    cbn. apply NoDup_cons. split; [|now apply IH].
    intros Hin. apply Hx. apply list_elem_of_fmap in Hin as (y & Hy1 & Hy2).
    apply zremove_elem_of in Hy2 as [Hy2 _]. apply list_elem_of_fmap. eauto.
  - intros Hin. apply list_elem_of_fmap in Hin as (y & Hy1 & Hy2).
    apply zremove_elem_of in Hy2 as [_ Hy2]. congruence.
Qed.

Lemma handleDepositEvent_keeps_index (env : Env) (user : string)
    (amount krwwMinted : Z) (event : DepositMonitor.EventLog) (w : World) :
  online (redis w) = true ->
  depositIndexOk (redis w) ->
  depositIndexOk
    (redis (DepositMonitor.handleDepositEvent env user amount krwwMinted event w).2).
Proof.
  intros Hon (Hsorted & Hnd & Hdocs).
  destruct (handleDepositEvent_online env user amount krwwMinted event w Hon)
    as (_ & Hd & Hi & _).
  cbv zeta in *. unfold depositIndexOk. rewrite Hi, Hd. cbv zeta.
  set (tx := DepositMonitor.e_transactionHash event) in *.
  destruct (zremove_NoDup tx _ Hnd) as [Hnd' Hfresh].
  split; [|split].
  - apply zinsert_sorted, zremove_sorted, Hsorted.
  - rewrite zinsert_Permutation. cbn. apply NoDup_cons. split; assumption.
  - intros score m Hin. apply zinsert_elem_of in Hin as [[= -> ->] | Hin].
    + exists (depositEventOf env user amount krwwMinted event).
      rewrite lookup_insert_eq. repeat split.
    + apply zremove_elem_of in Hin as [Hin Hne]. cbn in Hne.
      destruct (Hdocs score m Hin) as (d & Hdoc & Hts & Hh).
      exists d. rewrite lookup_insert_ne; [auto|].
      intros Heq. apply append_inj_l in Heq. congruence.
Qed.


(** X14. The reconciliation loop keeps the deposit index consistent: on
    a reachable store whose index is in ascending order of detection time,
    holds each hash once and has a matching document for every entry,
    handling any sequence of queried entries (new or replayed, decoded or
    not) leaves it so, and leaves the store reachable. *)
Theorem handleEvents_keeps_index (envs : nat -> Env) (i : nat)
    (events : list Reconciliation.ChainEvent) (w : World) :
  online (redis w) = true ->
  depositIndexOk (redis w) ->
  (Reconciliation.handleEvents envs i events w).1 = Returned tt /\
  online (redis (Reconciliation.handleEvents envs i events w).2) = true /\
  depositIndexOk (redis (Reconciliation.handleEvents envs i events w).2).
Proof.
  revert i w. induction events as [|event events IH]; intros i w Hon Hok.
  - cbn. auto.
  - cbn [Reconciliation.handleEvents]. destruct (Reconciliation.isEventLog event).
    + pose proof (handleDepositEvent_online (envs i) (Reconciliation.arg_user event)
        (Reconciliation.arg_amount event) (Reconciliation.arg_krwwMinted event)
        (Reconciliation.eventLog event) w Hon) as (Hon' & _).
      pose proof (handleDepositEvent_online_rest (envs i) (Reconciliation.arg_user event)
        (Reconciliation.arg_amount event) (Reconciliation.arg_krwwMinted event)
        (Reconciliation.eventLog event) w Hon) as (Hret & _).
      pose proof (handleDepositEvent_keeps_index (envs i)
        (Reconciliation.arg_user event) (Reconciliation.arg_amount event)
        (Reconciliation.arg_krwwMinted event) (Reconciliation.eventLog event) w Hon Hok)
        as Hok'.
      cbv zeta in *.
      destruct (DepositMonitor.handleDepositEvent _ _ _ _ _ w) as [o w'] eqn:E.
      cbn [fst snd] in *. subst o.
      rewrite (bind_returned _ _ w w' tt) by exact E.
      now apply IH.
    + rewrite (bind_returned _ _ w w tt) by reflexivity. now apply IH.
Qed.

Lemma handleEvents_keeps_index_witness :
  depositIndexOk
    (redis (Reconciliation.handleEvents (fun _ => Scenario.allFill) 0
              [{| Reconciliation.isEventLog := true;
                  Reconciliation.arg_user := "0xdepositor";
                  Reconciliation.arg_amount := 1000000000000000000;
                  Reconciliation.arg_krwwMinted := 2700000000000000000000000;
                  Reconciliation.eventLog := Scenario.depositLog |}]
              Scenario.world0).2).
Proof.
  apply (handleEvents_keeps_index (fun _ => Scenario.allFill) 0 _ Scenario.world0).
  - reflexivity.
  - split; [constructor|]. split; [constructor|].
    intros score m Hin. now apply elem_of_nil in Hin.
Defined.

Lemma history_fold (w : World) (txHashes : list string) (acc : list DepositEvent) :
  online (redis w) = true ->
  foldM (fun deposits txHash =>
           depositData ← RedisClient.getDeposit ("deposit:" +:+ txHash);
           mret (match depositData with
                 | Some d => deposits ++ [d]
                 | None => deposits
                 end))
        acc txHashes w
  = (Returned (acc ++ omap (fun txHash => depositDocs (redis w) !! ("deposit:" +:+ txHash))
                           txHashes), w).
Proof.
  intros Hon. revert acc. induction txHashes as [|t ts IH]; intros acc.
  - cbn. unfold_monad. now rewrite app_nil_r.
  - cbn [foldM].
    rewrite (bind_returned _ _ w w
      (match depositDocs (redis w) !! ("deposit:" +:+ t) with
       | Some d => acc ++ [d]
       | None => acc
       end)).
    + rewrite IH. cbn [omap list_omap].
      destruct (depositDocs (redis w) !! _) as [d|]; [|reflexivity].
      now rewrite <- app_assoc.
    + unfold RedisClient.getDeposit.
      rewrite (bind_returned _ _ w w (depositDocs (redis w) !! ("deposit:" +:+ t))).
      * reflexivity.
      * rewrite command_online by assumption. cbn [fst snd]. now rewrite setRedis_id.
Qed.

Lemma range_from_0 {A} (stop : Z) (l : list A) :
  RedisClient.range 0 stop l
  = take (Z.to_nat (if stop <? 0 then Z.of_nat (length l) + stop + 1 else stop + 1)) l.
Proof.
  unfold RedisClient.range. cbv zeta. cbn [Z.ltb Z.compare]. rewrite drop_0.
  destruct l as [|x l]; [now rewrite !take_nil; destruct (_ || _)|].
  set (n := Z.of_nat (length (x :: l))).
  assert (Hn : 0 < n) by (unfold n; cbn [length]; lia).
  assert (Hpos : (n <=? 0) = false) by (apply Z.leb_gt; exact Hn).
  rewrite Hpos, orb_false_r. rewrite Z.sub_0_r.
  destruct (stop <? 0) eqn:Hs.
  - apply Z.ltb_lt in Hs. destruct (n + stop <? 0) eqn:Hneg.
    + apply Z.ltb_lt in Hneg. replace (Z.to_nat (n + stop + 1)) with 0%nat by lia.
      reflexivity.
    + apply Z.ltb_ge in Hneg. now rewrite Z.min_l by lia.
  - rewrite Hs. apply Z.ltb_ge in Hs.
    destruct (Z.le_gt_cases stop (n - 1)) as [Hle | Hgt].
    + now rewrite Z.min_l by lia.
    + rewrite Z.min_r by lia. rewrite !take_ge; [reflexivity| |]; unfold n; lia.
Qed.

(** The number of entries [getDepositHistory(limit)] asks for, out of an
    index of [n]: [limit] of them for a positive limit; for a limit of zero
    or below the range ends at position [limit - 1] counted from the end,
    which leaves out the last [- limit] entries. *)
Lemma getDepositHistory_online (limit : Z) (w : World) :
  online (redis w) = true ->
  JS.isSafeInteger limit = true ->
  let index := RedisClient.entries (redis w) "deposits:timestamp" in
  let count := Z.to_nat (if 0 <? limit then limit else Z.of_nat (length index) + limit) in
  DepositMonitor.getDepositHistory limit w
  = (Returned (omap (fun txHash => depositDocs (redis w) !! ("deposit:" +:+ txHash))
                    (take count (rev (map snd index)))), w).
Proof.
  intros Hon Hsafe index count.
  unfold JS.isSafeInteger in Hsafe. apply andb_true_iff in Hsafe as [Hlo Hhi].
  apply Z.ltb_lt in Hlo, Hhi.
  unfold DepositMonitor.getDepositHistory, RedisClient.zRangeRev.
  apply tryCatch_returned.
  rewrite (bind_returned _ _ w w (take count (rev (map snd index)))).
  - now rewrite history_fold.
  - rewrite (bind_returned _ _ w w (rev (map snd index))).
    2:{ rewrite command_online by assumption. cbn [fst snd]. now rewrite setRedis_id. }
    assert (Hint : RedisClient.int64 0 && RedisClient.int64 (limit - 1) = true).
    { unfold RedisClient.int64. apply andb_true_iff. split; [reflexivity|].
      apply andb_true_iff. split; [apply Z.leb_le|apply Z.ltb_lt]; lia. }
    rewrite Hint. unfold mret, M_ret. do 2 f_equal. rewrite range_from_0.
    rewrite length_rev, length_map. unfold count. f_equal. f_equal.
    destruct (0 <? limit) eqn:E.
    + apply Z.ltb_lt in E. replace (limit - 1 <? 0) with false by (symmetry; apply Z.ltb_ge; lia).
      lia.
    + apply Z.ltb_ge in E. replace (limit - 1 <? 0) with true by (symmetry; apply Z.ltb_lt; lia).
      lia.
Qed.

Section Sorted.
Context {A : Type} (R : relation A).

Lemma StronglySorted_rev (l : list A) :
  StronglySorted R l -> StronglySorted (flip R) (rev l).
Proof.
  induction 1 as [|x l Hs IH Hx]; cbn; [constructor|].
  apply StronglySorted_app_2; [|exact IH|repeat constructor].
  intros x1 x2 H1 H2. apply list_elem_of_singleton in H2 as ->.
  rewrite Forall_forall in Hx. apply Hx.
  apply list_elem_of_In. apply in_rev. now apply list_elem_of_In.
Qed.

Lemma StronglySorted_take (n : nat) (l : list A) :
  StronglySorted R l -> StronglySorted R (take n l).
Proof.
  intros H. rewrite <- (take_drop n l) in H.
  now apply StronglySorted_app_1_l in H.
Qed.

Lemma StronglySorted_of_map {B} (f : B -> A) (l : list B) :
  StronglySorted R (map f l) -> StronglySorted (fun a b => R (f a) (f b)) l.
Proof.
  induction l as [|x l IH]; cbn; intros H; [constructor|].
  apply StronglySorted_inv in H as [H1 H2]. constructor; [now apply IH|].
  apply Forall_forall. intros y Hy. rewrite Forall_forall in H2.
  apply H2. apply list_elem_of_fmap. eauto.
Qed.

End Sorted.

(** X15. Deposit history, newest first: on a reachable store with a
    consistent index, [getDepositHistory(limit)] for a safe integer
    [limit] returns the deposits of the highest-scored index entries in
    descending order of detection time, each hash once, and changes
    nothing: the [limit] newest for a positive limit, the whole index for
    a limit of zero (the range then ends at position [-1], the last
    entry), and all but the [- limit] oldest for a negative limit. *)
Theorem getDepositHistory_newest_first (limit : Z) (w : World) :
  online (redis w) = true ->
  depositIndexOk (redis w) ->
  JS.isSafeInteger limit = true ->
  let index := RedisClient.entries (redis w) "deposits:timestamp" in
  let count := Z.to_nat (if 0 <? limit then limit else Z.of_nat (length index) + limit) in
  exists deposits,
    DepositMonitor.getDepositHistory limit w = (Returned deposits, w) /\
    map (fun d => (dep_timestamp d, transactionHash d)) deposits = take count (rev index) /\
    StronglySorted (fun a b => dep_timestamp b <= dep_timestamp a) deposits /\
    NoDup (map transactionHash deposits) /\
    length deposits = Nat.min count (length index) /\
    (limit = 0 ->
     map (fun d => (dep_timestamp d, transactionHash d)) deposits = rev index).
Proof.
  intros Hon (Hsorted & Hnd & Hdocs) Hsafe index count.
  fold index in Hsorted, Hnd, Hdocs.
  set (f := fun txHash : string => depositDocs (redis w) !! ("deposit:" +:+ txHash)).
  assert (Hread : forall es, (forall x, x ∈ es -> x ∈ index) ->
            map (fun d => (dep_timestamp d, transactionHash d)) (omap f (map snd es)) = es).
  { induction es as [|[score m] es IH]; intros Hsub; [reflexivity|].
    cbn. destruct (Hdocs score m) as (d & Hd & Hts & Hh); [apply Hsub; set_solver|].
    unfold f at 1. rewrite Hd. cbn. rewrite Hts, Hh. f_equal.
    apply IH. intros x Hx. apply Hsub. set_solver. }
  exists (omap f (take count (rev (map snd index)))).
  assert (Hmap : map (fun d => (dep_timestamp d, transactionHash d))
                     (omap f (take count (rev (map snd index))))
                 = take count (rev index)).
  { rewrite <- map_rev.
    change (take count (map snd (rev index))) with (take count (snd <$> rev index)).
    rewrite <- fmap_take. apply Hread.
    intros x Hx. apply list_elem_of_In, in_rev, list_elem_of_In.
    rewrite <- (take_drop count (rev index)). set_solver. }
  split; [exact (getDepositHistory_online limit w Hon Hsafe)|]. split; [exact Hmap|].
  split; [|split; [|split]].
  - apply (StronglySorted_of_map (fun a b : Z * string => b.1 <= a.1)
             (fun d => (dep_timestamp d, transactionHash d))).
    rewrite Hmap. apply StronglySorted_take.
    exact (StronglySorted_rev _ _ Hsorted).
  - assert (Hh : map transactionHash (omap f (take count (rev (map snd index))))
                 = map snd (take count (rev index))).
    { rewrite <- Hmap, map_map. reflexivity. }
    rewrite Hh. change (map snd (take count (rev index))) with (snd <$> take count (rev index)).
    rewrite fmap_take.
    assert (Hrev : NoDup (snd <$> rev index)).
    { change (snd <$> rev index) with (map snd (rev index)). rewrite map_rev.
      apply NoDup_ListNoDup, NoDup_rev, NoDup_ListNoDup, Hnd. }
    rewrite <- (take_drop count (snd <$> rev index)) in Hrev.
    now apply NoDup_app in Hrev as (Hrev & _).
  - rewrite <- (length_map (fun d => (dep_timestamp d, transactionHash d))), Hmap.
    now rewrite length_take, length_rev.
  - intros ->. rewrite Hmap. apply take_ge. rewrite length_rev. unfold count. cbn. lia.
Qed.

Lemma getDepositHistory_newest_first_witness :
  let w := (DepositMonitor.handleDepositEvent Scenario.later "0xdepositor"
              2000000000000000000 5400000000000000000000000
              (Reconciliation.eventLog ChainScenario.second)
              (DepositMonitor.handleDepositEvent Scenario.allFill "0xdepositor"
                 1000000000000000000 2700000000000000000000000 Scenario.depositLog
                 Scenario.world0).2).2 in
  exists deposits,
    DepositMonitor.getDepositHistory 0 w = (Returned deposits, w) /\
    map (fun d => (dep_timestamp d, transactionHash d)) deposits
      = [(1700000030000, "0xdef"); (1700000000000, "0xabc")].
Proof.
  cbv zeta.
  destruct (getDepositHistory_newest_first 0
              (DepositMonitor.handleDepositEvent Scenario.later "0xdepositor"
                 2000000000000000000 5400000000000000000000000
                 (Reconciliation.eventLog ChainScenario.second)
                 (DepositMonitor.handleDepositEvent Scenario.allFill "0xdepositor"
                    1000000000000000000 2700000000000000000000000 Scenario.depositLog
                    Scenario.world0).2).2) as (ds & H1 & _ & _ & _ & _ & H2).
  - reflexivity.
  - apply handleDepositEvent_keeps_index; [reflexivity|].
    apply handleDepositEvent_keeps_index; [reflexivity|].
    split; [constructor|]. split; [constructor|].
    intros score m Hin. now apply elem_of_nil in Hin.
  - reflexivity.
  - exists ds. split; [exact H1|]. rewrite H2 by reflexivity. vm_compute. reflexivity.
Defined.

(** ** Reconciliation *)

Lemma fold_max_le (bs : list Z) (z : Z) : z <= fold_left Z.max bs z.
Proof.
  revert z. induction bs as [|b bs IH]; intros z; cbn; [lia|].
  specialize (IH (Z.max z b)). lia.
Qed.

Lemma handleEvents_effect (envs : nat -> Env) (i : nat)
    (events : list Reconciliation.ChainEvent) (w : World) :
  online (redis w) = true ->
  let w' := (Reconciliation.handleEvents envs i events w).2 in
  (Reconciliation.handleEvents envs i events w).1 = Returned tt /\
  online (redis w') = true /\
  map depositTxHash (RedisClient.items (redis w') "hedge_requests")
    = rev (map eventTx (decoded events))
        ++ map depositTxHash (RedisClient.items (redis w) "hedge_requests") /\
  lastProcessedBlock w'
    = fold_left Z.max (map eventBlock (decoded events)) (lastProcessedBlock w) /\
  calls w' = calls w /\
  (forall t, (exists d, depositDocs (redis w) !! ("deposit:" +:+ t) = Some d /\
                        transactionHash d = t) \/
             t ∈ map eventTx (decoded events) ->
             exists d, depositDocs (redis w') !! ("deposit:" +:+ t) = Some d /\
                       transactionHash d = t).
Proof.
  revert i w. induction events as [|event events IH]; intros i w Hon.
  - cbn. repeat split; auto. intros t [H|H]; [exact H|]. now apply elem_of_nil in H.
  - cbn [Reconciliation.handleEvents decoded List.filter].
    destruct (Reconciliation.isEventLog event).
    + pose proof (handleDepositEvent_online (envs i) (Reconciliation.arg_user event)
        (Reconciliation.arg_amount event) (Reconciliation.arg_krwwMinted event)
        (Reconciliation.eventLog event) w Hon) as (Hon' & Hdocs & _ & Hitems & Hcalls).
      pose proof (handleDepositEvent_online_rest (envs i) (Reconciliation.arg_user event)
        (Reconciliation.arg_amount event) (Reconciliation.arg_krwwMinted event)
        (Reconciliation.eventLog event) w Hon) as (Hret & Hmax & _).
      cbv zeta in *.
      destruct (DepositMonitor.handleDepositEvent _ _ _ _ _ w) as [o w1] eqn:E.
      cbn [fst snd] in *. subst o.
      rewrite (bind_returned _ _ w w1 tt) by exact E.
      destruct (IH (S i) w1 Hon') as (R1 & R2 & R3 & R4 & R5 & R6).
      fold (decoded events) in *.
      split; [exact R1|]. split; [exact R2|]. split.
      { rewrite R3, Hitems. cbn [map rev]. rewrite <- app_assoc. reflexivity. }
      split. { rewrite R4, Hmax. reflexivity. }
      split. { now rewrite R5. }
      intros t Ht. apply R6.
      destruct (decide (t = eventTx event)) as [-> | Hne].
      * left. eexists. rewrite Hdocs. unfold eventTx. rewrite lookup_insert_eq.
        split; reflexivity.
      * destruct Ht as [(d & Hd & Hh) | Ht].
        -- left. exists d. rewrite Hdocs. rewrite lookup_insert_ne; [auto|].
           intros Heq. apply append_inj_l in Heq. unfold eventTx in Hne. congruence.
        -- right. cbn [map] in Ht. apply elem_of_cons in Ht as [Ht | Ht]; [congruence|].
           exact Ht.
    + rewrite (bind_returned _ _ w w tt) by reflexivity.
      fold (decoded events). now apply IH.
Qed.

(** X16. One reconciliation cycle on a reachable store: when the chain head
    is beyond [lastProcessedBlock], the cycle queries the range from
    [lastProcessedBlock + 1] to the head and handles every decoded entry in
    order. It queues one hedge request per decoded entry (repeated hashes
    included), leaves a deposit document for each of their hashes, moves
    [lastProcessedBlock] to the highest block seen, and invokes no venue. *)
Theorem checkMissedEvents_replays_range (chain : Reconciliation.Provider)
    (envs : nat -> Env) (currentBlock : Z) (events : list Reconciliation.ChainEvent)
    (w : World) :
  online (redis w) = true ->
  Reconciliation.getBlockNumber chain = Returned currentBlock ->
  lastProcessedBlock w < currentBlock ->
  Reconciliation.queryFilter chain (lastProcessedBlock w + 1) currentBlock
    = Returned events ->
  let result := Reconciliation.checkMissedEvents chain envs w in
  result.1 = Returned tt /\
  map depositTxHash (RedisClient.items (redis result.2) "hedge_requests")
    = rev (map eventTx (decoded events))
        ++ map depositTxHash (RedisClient.items (redis w) "hedge_requests") /\
  (forall t, t ∈ map eventTx (decoded events) ->
     exists d, depositDocs (redis result.2) !! ("deposit:" +:+ t) = Some d /\
               transactionHash d = t) /\
  lastProcessedBlock result.2
    = fold_left Z.max (map eventBlock (decoded events)) (lastProcessedBlock w) /\
  lastProcessedBlock w <= lastProcessedBlock result.2 /\
  calls result.2 = calls w.
Proof.
  intros Hon Hhead Hlt Hquery.
  destruct (handleEvents_effect envs 0 events w Hon) as (R1 & R2 & R3 & R4 & R5 & R6).
  cbv zeta in *.
  assert (Hrun : Reconciliation.checkMissedEvents chain envs w
                 = Reconciliation.handleEvents envs 0 events w).
  { unfold Reconciliation.checkMissedEvents. 
    destruct (Reconciliation.handleEvents envs 0 events w) as [o w'] eqn:E.
    cbn [fst] in R1. subst o. apply tryCatch_returned.
    rewrite (bind_returned _ _ w w currentBlock)
      by (unfold Reconciliation.provider; now rewrite Hhead).
    rewrite (bind_returned _ _ w w (lastProcessedBlock w)) by reflexivity.
    cbv zeta.
    assert (Hc : (currentBlock <? lastProcessedBlock w + 1) = false)
      by (apply Z.ltb_ge; lia).
    rewrite Hc.
    rewrite (bind_returned _ _ w w events)
      by (unfold Reconciliation.provider; now rewrite Hquery).
    exact E. }
  rewrite Hrun. repeat split; auto.
  rewrite R4. apply fold_max_le.
Qed.

Lemma checkMissedEvents_replays_range_witness :
  let result := Reconciliation.checkMissedEvents ChainScenario.chain ChainScenario.clocks
                  Scenario.world0 in
  map depositTxHash (RedisClient.items (redis result.2) "hedge_requests")
    = ["0xabc"; "0xdef"; "0xabc"] /\
  lastProcessedBlock result.2 = 19000007.
Proof.
  destruct (checkMissedEvents_replays_range ChainScenario.chain ChainScenario.clocks
              19000010
              [ChainScenario.first; ChainScenario.second; ChainScenario.undecoded;
               ChainScenario.first]
              Scenario.world0) as (_ & H1 & _ & H2 & _).
  - reflexivity.
  - reflexivity.
  - reflexivity.
  - reflexivity.
  - split; [rewrite H1|rewrite H2]; reflexivity.
Defined.

Lemma handleEvents_undecoded (envs : nat -> Env) (i : nat)
    (events : list Reconciliation.ChainEvent) (w : World) :
  decoded events = [] ->
  Reconciliation.handleEvents envs i events w = (Returned tt, w).
Proof.
  revert i. induction events as [|event events IH]; intros i Hnone; [reflexivity|].
  cbn [Reconciliation.handleEvents]. unfold decoded in *. cbn [List.filter] in Hnone.
  destruct (Reconciliation.isEventLog event); [discriminate|].
  rewrite (bind_returned _ _ w w tt) by reflexivity. now apply IH.
Qed.

(** X17. A reconciliation cycle with nothing to do changes nothing and
    never fails: when the provider cannot give the chain head, when the head
    is not beyond [lastProcessedBlock], when the log query throws, or when
    it returns no decoded entry, [checkMissedEvents] returns normally and
    leaves the store, the queue and [lastProcessedBlock] as they were. *)
Theorem checkMissedEvents_nothing_to_do (chain : Reconciliation.Provider)
    (envs : nat -> Env) (w : World) :
  match Reconciliation.getBlockNumber chain with
  | Thrown _ => True
  | Returned currentBlock =>
      currentBlock <= lastProcessedBlock w \/
      match Reconciliation.queryFilter chain (lastProcessedBlock w + 1) currentBlock with
      | Thrown _ => True
      | Returned events => decoded events = []
      end
  end ->
  Reconciliation.checkMissedEvents chain envs w = (Returned tt, w).
Proof.
  intros H. unfold Reconciliation.checkMissedEvents, tryCatch.
  destruct (Reconciliation.getBlockNumber chain) as [currentBlock|] eqn:Hhead.
  - rewrite (bind_returned _ _ w w currentBlock)
      by reflexivity.
    rewrite (bind_returned _ _ w w (lastProcessedBlock w)) by reflexivity.
    cbv zeta. destruct (currentBlock <? lastProcessedBlock w + 1) eqn:Hc; [reflexivity|].
    apply Z.ltb_ge in Hc. destruct H as [H|H]; [lia|].
    destruct (Reconciliation.queryFilter chain (lastProcessedBlock w + 1) currentBlock)
      as [events|] eqn:Hq.
    + rewrite (bind_returned _ _ w w events)
        by reflexivity.
      now rewrite handleEvents_undecoded.
    + erewrite bind_thrown; reflexivity.
  - erewrite bind_thrown; reflexivity.
Qed.

Lemma checkMissedEvents_nothing_to_do_witness :
  Reconciliation.checkMissedEvents ChainScenario.down ChainScenario.clocks Scenario.world0
  = (Returned tt, Scenario.world0).
Proof.
  apply (checkMissedEvents_nothing_to_do ChainScenario.down ChainScenario.clocks
           Scenario.world0).
  exact I.
Defined.

Lemma handleEvents_offline (envs : nat -> Env) (i : nat)
    (events : list Reconciliation.ChainEvent) (w : World) :
  online (redis w) = false ->
  Reconciliation.handleEvents envs i events w
  = (Returned tt,
     {| redis := redis w; calls := calls w;
        lastProcessedBlock :=
          fold_left Z.max (map eventBlock (decoded events)) (lastProcessedBlock w) |}).
Proof.
  revert i w. induction events as [|event events IH]; intros i w Hoff.
  - cbn. now destruct w.
  - cbn [Reconciliation.handleEvents decoded List.filter].
    destruct (Reconciliation.isEventLog event).
    + rewrite (bind_returned _ _ w _ tt)
        by (now apply handleDepositEvent_offline).
      fold (decoded events). rewrite IH by exact Hoff. reflexivity.
    + rewrite (bind_returned _ _ w w tt) by reflexivity.
      fold (decoded events). now apply IH.
Qed.

(** X18. A reconciliation cycle while the store cannot be reached skips
    the range for good: it handles the queried entries without storing a
    deposit or queueing a request, and still moves [lastProcessedBlock] to
    the highest block among them, so that no later cycle queries a range
    containing any of them. *)
Theorem checkMissedEvents_skips_range_when_store_unreachable
    (chain : Reconciliation.Provider) (envs : nat -> Env) (currentBlock : Z)
    (events : list Reconciliation.ChainEvent) (w : World) :
  online (redis w) = false ->
  Reconciliation.getBlockNumber chain = Returned currentBlock ->
  lastProcessedBlock w < currentBlock ->
  Reconciliation.queryFilter chain (lastProcessedBlock w + 1) currentBlock
    = Returned events ->
  let result := Reconciliation.checkMissedEvents chain envs w in
  result.1 = Returned tt /\
  redis result.2 = redis w /\
  lastProcessedBlock result.2
    = fold_left Z.max (map eventBlock (decoded events)) (lastProcessedBlock w) /\
  Forall (fun event => eventBlock event < lastProcessedBlock result.2 + 1)
         (decoded events).
Proof.
  intros Hoff Hhead Hlt Hquery.
  assert (Hrun : Reconciliation.checkMissedEvents chain envs w
                 = Reconciliation.handleEvents envs 0 events w).
  { unfold Reconciliation.checkMissedEvents. rewrite handleEvents_offline by exact Hoff.
    apply tryCatch_returned.
    rewrite (bind_returned _ _ w w currentBlock)
      by (unfold Reconciliation.provider; now rewrite Hhead).
    rewrite (bind_returned _ _ w w (lastProcessedBlock w)) by reflexivity.
    cbv zeta.
    assert (Hc : (currentBlock <? lastProcessedBlock w + 1) = false)
      by (apply Z.ltb_ge; lia).
    rewrite Hc.
    rewrite (bind_returned _ _ w w events)
      by (unfold Reconciliation.provider; now rewrite Hquery).
    now apply handleEvents_offline. }
  cbv zeta. rewrite Hrun, handleEvents_offline by exact Hoff. cbn [fst snd redis lastProcessedBlock].
  repeat split. apply Forall_forall. intros event Hin.
  assert (H : forall bs z b, b ∈ bs -> b <= fold_left Z.max bs z).
  { induction bs as [|x bs IH]; intros z b Hb; [now apply elem_of_nil in Hb|].
    cbn. apply elem_of_cons in Hb as [-> | Hb].
    - pose proof (fold_max_le bs (Z.max z x)). lia.
    - now apply IH. }
  specialize (H (map eventBlock (decoded events)) (lastProcessedBlock w) (eventBlock event)).
  assert (eventBlock event ∈ map eventBlock (decoded events))
    by (apply list_elem_of_fmap; eauto).
  specialize (H ltac:(assumption)). lia.
Qed.

Lemma checkMissedEvents_skips_range_when_store_unreachable_witness :
  let result := Reconciliation.checkMissedEvents ChainScenario.chain ChainScenario.clocks
                  (Scenario.unreachable Scenario.world0) in
  redis result.2 = redis (Scenario.unreachable Scenario.world0) /\
  lastProcessedBlock result.2 = 19000007.
Proof.
  destruct (checkMissedEvents_skips_range_when_store_unreachable ChainScenario.chain
              ChainScenario.clocks 19000010
              [ChainScenario.first; ChainScenario.second; ChainScenario.undecoded;
               ChainScenario.first]
              (Scenario.unreachable Scenario.world0)) as (_ & H1 & H2 & _).
  - reflexivity.
  - reflexivity.
  - reflexivity.
  - reflexivity.
  - split; [exact H1|rewrite H2; reflexivity].
Defined.

(** ** From the deposit handler to the consumer loop *)

Lemma replay_queue (envs : list Env) (user : string) (amount krwwMinted : Z)
    (event : DepositMonitor.EventLog) (w : World) :
  online (redis w) = true ->
  let w' := replay envs user amount krwwMinted event w in
  online (redis w') = true /\
  RedisClient.items (redis w') "hedge_requests"
    = map (fun env => DepositMonitor.hedgeRequestOf env
                        (depositEventOf env user amount krwwMinted event)) (rev envs)
        ++ RedisClient.items (redis w) "hedge_requests" /\
  positionDocs (redis w') = positionDocs (redis w) /\
  logDocs (redis w') = logDocs (redis w) /\
  sets (redis w') = sets (redis w) /\
  calls w' = calls w.
Proof.
  intros Hon. induction envs as [|env envs IH] using rev_ind.
  - cbn. repeat split; auto.
  - cbv zeta in *. rewrite replay_snoc.
    destruct IH as (Hon' & Hq & Hp & Hl & Hs & Hc).
    destruct (handleDepositEvent_online env user amount krwwMinted event _ Hon')
      as (H1 & _ & _ & H4 & H5).
    destruct (handleDepositEvent_online_rest env user amount krwwMinted event _ Hon')
      as (_ & _ & _ & H6 & H7 & H8).
    cbv zeta in *. rewrite H4, H5, H6, H7, H8, Hq, Hp, Hl, Hs, Hc.
    rewrite rev_app_distr. cbn. repeat split; auto.
Qed.

Lemma storedPositions_ext (r1 r2 : Redis) (txHash : string) :
  positionDocs r1 = positionDocs r2 -> sets r1 = sets r2 ->
  storedPositions r1 txHash = storedPositions r2 txHash.
Proof.
  intros Hp Hs. unfold storedPositions, RedisClient.members. now rewrite Hp, Hs.
Qed.

Lemma brPop_online (key : string) (q : list HedgeRequest) (x : HedgeRequest) (w : World) :
  online (redis w) = true ->
  RedisClient.items (redis w) key = q ++ [x] ->
  exists w',
    HedgeConsumer.brPop key w = (Returned (Some x), w') /\
    RedisClient.items (redis w') key = q /\
    online (redis w') = true /\
    positionDocs (redis w') = positionDocs (redis w) /\
    logDocs (redis w') = logDocs (redis w) /\
    sets (redis w') = sets (redis w) /\
    calls w' = calls w.
Proof.
  intros Hon Hq. unfold HedgeConsumer.brPop.
  rewrite command_online by exact Hon. rewrite Hq, rev_app_distr. cbn [rev app fst snd].
  eexists. split; [reflexivity|]. cbn. repeat split; auto.
  unfold RedisClient.items. cbn.
  destruct (rev q) as [|y ys] eqn:E.
  - rewrite lookup_delete_eq. cbn.
    apply (f_equal (@rev _)) in E. rewrite rev_involutive in E. now rewrite E.
  - rewrite lookup_insert_eq. cbn [default]. rewrite <- E. apply rev_involutive.
Qed.

Lemma executeHedge_leaves_record (env : Env) (request : HedgeRequest) (w : World) :
  online (redis w) = true ->
  storedPositions (redis w) (depositTxHash request) = [] ->
  let w' := (HedgeService.executeHedge env request w).2 in
  online (redis w') = true /\
  storedPositions (redis w') (depositTxHash request) <> [] /\
  is_Some (logDocs (redis w') !! ("hedge_log:" +:+ depositTxHash request)) /\
  lists (redis w') = lists (redis w) /\
  calls w' = calls w ++ hedgeCalls env request.
Proof.
  intros Hon Hfresh. cbv zeta. rewrite executeHedge_fresh by assumption. cbn [snd].
  destruct (aggregate_hedgeOutcomes_last env request) as (ps & p & Hps & Hwf).
  destruct (storeAll_frame (depositTxHash request)
              (HedgeService.aggregate (hedgeOutcomes env request)).2 (redis w))
    as (_ & _ & _ & Hlists & _).
  cbn [redis calls]. split; [cbn; now rewrite storeAll_online|].
  split.
  { apply (stored_nonempty _ _ p); [|exact Hwf].
    rewrite Hps, storeAll_snoc. exact (storeOne_stored _ p _). }
  split; [cbn; rewrite lookup_insert_eq; eauto|].
  split; [exact Hlists|reflexivity].
Qed.

(** Draining a queue of entries for a hash that already has a record. *)
Lemma drain_guarded (txHash : string) (workers : list Env) :
  forall (q : list HedgeRequest) (w : World),
  online (redis w) = true ->
  storedPositions (redis w) txHash <> [] ->
  RedisClient.items (redis w) "hedge_requests" = q ->
  Forall (fun request => depositTxHash request = txHash) q ->
  length workers = length q ->
  let w' := (HedgeConsumer.processHedgeRequests workers w).2 in
  RedisClient.items (redis w') "hedge_requests" = [] /\
  calls w' = calls w /\
  logDocs (redis w') = logDocs (redis w) /\
  positionDocs (redis w') = positionDocs (redis w).
Proof.
  induction workers as [|env workers IH]; intros q w Hon Hrec Hq Hall Hlen.
  - destruct q; [|discriminate]. cbn. auto.
  - destruct q as [|x q _] using rev_ind; [discriminate|].
    rewrite length_app in Hlen. cbn in Hlen.
    apply Forall_app in Hall as [Hall Hx]. apply Forall_inv in Hx.
    destruct (brPop_online "hedge_requests" q x w Hon Hq)
      as (w1 & Hpop & Hq1 & Hon1 & Hp1 & Hl1 & Hs1 & Hc1).
    assert (Hrec1 : storedPositions (redis w1) txHash <> []).
    { now rewrite (storedPositions_ext (redis w1) (redis w)). }
    assert (Hit : HedgeConsumer.iteration env w = (Returned tt, w1)).
    { unfold HedgeConsumer.iteration. apply tryCatch_returned.
      rewrite (bind_returned _ _ w w1 (Some x)) by exact Hpop.
      apply executeHedge_guard; [exact Hon1|]. now rewrite Hx. }
    cbv zeta. cbn [HedgeConsumer.processHedgeRequests].
    rewrite (bind_returned _ _ w w1 tt) by exact Hit.
    destruct (IH q w1 Hon1 Hrec1 Hq1 Hall ltac:(lia)) as (R1 & R2 & R3 & R4).
    cbv zeta in *. rewrite R1, R2, R3, R4. auto.
Qed.

(** X19. From replayed deposit to a single execution: when the same
    deposit event is delivered one or more times to the handler on a
    reachable store with an empty request queue and no record for its hash,
    and the consumer loop then takes one turn per queued entry, the oldest
    entry is executed and every duplicate is skipped: the venue calls made
    are those of exactly one execution, a log exists for the hash, and the
    queue ends empty. *)
Theorem replayed_deposit_is_hedged_once (env : Env) (envs : list Env)
    (worker : Env) (workers : list Env) (user : string) (amount krwwMinted : Z)
    (event : DepositMonitor.EventLog) (w : World) :
  online (redis w) = true ->
  RedisClient.items (redis w) "hedge_requests" = [] ->
  storedPositions (redis w) (DepositMonitor.e_transactionHash event) = [] ->
  length workers = length envs ->
  let w1 := replay (env :: envs) user amount krwwMinted event w in
  let w2 := (HedgeConsumer.processHedgeRequests (worker :: workers) w1).2 in
  let request := DepositMonitor.hedgeRequestOf env
                   (depositEventOf env user amount krwwMinted event) in
  length (RedisClient.items (redis w1) "hedge_requests") = S (length envs) /\
  calls w2 = calls w ++ hedgeCalls worker request /\
  is_Some (logDocs (redis w2)
             !! ("hedge_log:" +:+ DepositMonitor.e_transactionHash event)) /\
  RedisClient.items (redis w2) "hedge_requests" = [].
Proof.
  intros Hon Hempty Hfresh Hlen.
  destruct (replay_queue (env :: envs) user amount krwwMinted event w Hon)
    as (Hon1 & Hq1 & Hp1 & Hl1 & Hs1 & Hc1).
  cbv zeta in *.
  set (tx := DepositMonitor.e_transactionHash event) in *.
  set (w1 := replay (env :: envs) user amount krwwMinted event w) in *.
  set (reqOf := fun e : Env => DepositMonitor.hedgeRequestOf e
                                 (depositEventOf e user amount krwwMinted event)) in *.
  rewrite Hempty, app_nil_r in Hq1. cbn [rev] in Hq1. rewrite map_app in Hq1.
  cbn [map] in Hq1.
  split. { rewrite Hq1, length_app, length_map, length_rev. cbn. lia. }
  destruct (brPop_online "hedge_requests" (map reqOf (rev envs)) (reqOf env) w1 Hon1 Hq1)
    as (wp & Hpop & Hqp & Honp & Hpp & Hlp & Hsp & Hcp).
  assert (Hfreshp : storedPositions (redis wp) (depositTxHash (reqOf env)) = []).
  { rewrite (storedPositions_ext (redis wp) (redis w)); [exact Hfresh| |]; congruence. }
  destruct (executeHedge_leaves_record worker (reqOf env) wp Honp Hfreshp)
    as (Hon2 & Hrec2 & Hlog2 & Hlists2 & Hcalls2).
  cbv zeta in *.
  set (we := (HedgeService.executeHedge worker (reqOf env) wp).2) in *.
  assert (Hit : HedgeConsumer.iteration worker w1 = (Returned tt, we)).
  { unfold HedgeConsumer.iteration. apply tryCatch_returned.
    rewrite (bind_returned _ _ w1 wp (Some (reqOf env))) by exact Hpop.
    unfold we. destruct (HedgeService.executeHedge worker (reqOf env) wp) as [o x] eqn:E.
    pose proof (executeHedge_fresh worker (reqOf env) wp Honp Hfreshp) as Hf.
    rewrite E in Hf. now injection Hf as -> ->. }
  cbn [HedgeConsumer.processHedgeRequests].
  rewrite (bind_returned _ _ w1 we tt) by exact Hit.
  assert (Hqe : RedisClient.items (redis we) "hedge_requests" = map reqOf (rev envs)).
  { unfold RedisClient.items in *. now rewrite Hlists2. }
  destruct (drain_guarded tx workers (map reqOf (rev envs)) we Hon2 Hrec2 Hqe)
    as (R1 & R2 & R3 & R4).
  - apply Forall_forall. intros r Hr. apply list_elem_of_fmap in Hr as (e & -> & _).
    reflexivity.
  - now rewrite length_map, length_rev.
  - cbv zeta in *. rewrite R2, R3, Hcalls2, Hcp, Hc1. auto.
Qed.

Lemma replayed_deposit_is_hedged_once_witness :
  let w1 := replay [Scenario.allFill; Scenario.later; Scenario.later] "0xdepositor"
              1000000000000000000 2700000000000000000000000 Scenario.depositLog
              Scenario.world0 in
  let w2 := (HedgeConsumer.processHedgeRequests
               [Scenario.bybitRejects; Scenario.allFill; Scenario.allFill] w1).2 in
  length (calls w2) = 5%nat /\
  RedisClient.items (redis w2) "hedge_requests" = [].
Proof.
  destruct (replayed_deposit_is_hedged_once Scenario.allFill
              [Scenario.later; Scenario.later] Scenario.bybitRejects
              [Scenario.allFill; Scenario.allFill] "0xdepositor"
              1000000000000000000 2700000000000000000000000 Scenario.depositLog
              Scenario.world0) as (_ & H1 & _ & H2).
  - reflexivity.
  - reflexivity.
  - reflexivity.
  - reflexivity.
  - cbv zeta. split; [rewrite H1; reflexivity|exact H2].
Defined.

(** ** Configuration *)

Lemma envOr_nonempty (penv : gmap string string) (name : string) :
  Config.envOr penv name "" <> "" <-> exists v, penv !! name = Some v /\ v <> "".
Proof.
  unfold Config.envOr. destruct (penv !! name) as [v|].
  - destruct (String.eqb_spec v "") as [-> | Hne].
    + split; [congruence|]. intros (v & [= <-] & Hv). congruence.
    + split; eauto.
  - split; [congruence|]. intros (v & [=] & _).
Qed.

(** X20. What [validateConfig] requires: it returns normally exactly when
    the nine variables ETH_RPC_URL, PRIVATE_KEY, DEPOSIT_CONTRACT_ADDRESS,
    BINANCE_API_KEY, BINANCE_SECRET_KEY, HYPERLIQUID_PRIVATE_KEY,
    HYPERLIQUID_WALLET_ADDRESS, BYBIT_API_KEY and BYBIT_SECRET_KEY are set
    and not empty; the CME credentials, the token contract addresses and
    the Redis URL are never checked. Otherwise it throws, naming a
    required field. *)
Theorem validateConfig_requires (penv : gmap string string) :
  (Config.validateConfig (Config.config penv) = Returned tt <->
   Forall (fun name => exists v, penv !! name = Some v /\ v <> "")
     [ "ETH_RPC_URL"; "PRIVATE_KEY"; "DEPOSIT_CONTRACT_ADDRESS";
       "BINANCE_API_KEY"; "BINANCE_SECRET_KEY";
       "HYPERLIQUID_PRIVATE_KEY"; "HYPERLIQUID_WALLET_ADDRESS";
       "BYBIT_API_KEY"; "BYBIT_SECRET_KEY" ]) /\
  (forall e, Config.validateConfig (Config.config penv) = Thrown e ->
     exists field, field ∈ Config.requiredFields /\
                   e = "Missing required configuration field: " +:+ field).
Proof.
  split.
  - rewrite !Forall_cons, Forall_nil. rewrite <- !envOr_nonempty.
    unfold Config.validateConfig, Config.requiredFields. cbn.
    repeat match goal with
           | |- context [String.eqb ?a ""] =>
               destruct (String.eqb_spec a ""); [split; [discriminate|tauto]|]
           end.
    tauto.
  - intros e. unfold Config.validateConfig, Config.requiredFields. cbn.
    repeat match goal with
           | |- context [String.eqb ?a ""] =>
               destruct (String.eqb a "");
               [intros [= <-]; eexists; split; [|reflexivity]; set_solver|]
           end.
    discriminate.
Qed.

(** ** Order sizing never goes below the minimum *)







